(** * Sulley: CRC16, the DNP3 framer and the request-construction API

    A shallow embedding of [sulley/utils/crc16.py], [sulley/utils/scada.py]
    and the construction functions of [sulley/__init__.py].

    Python 2 values are modelled as follows: an [int]/[long] is a [Z]
    (Python integers do not wrap), a [str] is a [string] (a sequence of
    8-bit characters), an exception is a value of [exn] carried on the left
    of a sum, and the module globals [sulley.blocks.REQUESTS] and
    [sulley.blocks.CURRENT] are threaded through a state-and-error monad. *)

From Stdlib Require Import ZArith List String Ascii Bool Lia.
From stdpp Require Import gmap strings list.

Local Open Scope Z_scope.

(* stdpp keeps [append] from simplifying; the proofs below compute with it. *)
#[local] Arguments append !s1 s2 : simpl nomatch.

(** ** Exceptions and results *)

(** [sulley.sex.SullyRuntimeError] is the single exception class of the
    construction API; its instances are told apart by their message.  Each
    constructor below stands for one family of messages and is named after
    the error taxonomy of the specification. *)
Inductive sully_error :=
| DuplicateName        (* "blocks.REQUESTS ALREADY EXISTS", "BLOCK NAME ALREADY EXISTS" *)
| NotFound             (* "blocks.REQUESTS NOT FOUND", "NO OBJECT WITH NAME ... FOUND" *)
| DanglingReference    (* "CAN NOT ADD A ... FOR A BLOCK CURRENTLY IN THE STACK" *)
| EmptyStack.          (* "BLOCK STACK OUT OF SYNC" *)

Inductive exn :=
| ValueError                          (* chr() arg not in range(256), bad int() literal *)
| TypeError                           (* calling an object that is not callable *)
| StructError                         (* struct.error *)
| AttributeError                      (* attribute access on None *)
| SullyRuntimeError (e : sully_error).

Definition result (A : Type) : Type := (exn + A)%type.

Definition ok {A} (a : A) : result A := inr a.
Definition raise {A} (e : exn) : result A := inl e.

Definition rbind {A B} (m : result A) (k : A -> result B) : result B :=
  match m with
  | inl e => inl e
  | inr a => k a
  end.

Notation "x <-r m ; k" := (rbind m (fun x => k))
  (at level 100, m at level 99, right associativity).

(** ** Strings *)

Definition ord (c : ascii) : Z := Z.of_N (N_of_ascii c).

(** [chr(n)]: a one-character string, [ValueError] outside [range(256)]. *)
Definition chr (n : Z) : result string :=
  if (0 <=? n) && (n <? 256)
  then ok (String (ascii_of_N (Z.to_N n)) EmptyString)
  else raise ValueError.

Definition chars (s : string) : list ascii := list_ascii_of_string s.

Definition len (s : string) : Z := Z.of_nat (String.length s).

(** A [for] loop over [range(n)] whose body may [break]: the body returns
    the new state and whether it broke out. *)
Fixpoint for_range_break {St : Type} (n : nat) (body : St -> St * bool) (s : St) : St :=
  match n with
  | O => s
  | S n' => let '(s', brk) := body s in
            if brk then s' else for_range_break n' body s'
  end.

(** ** crc16.py *)

(** Python truthiness of an integer. *)
Definition truthy (z : Z) : bool := negb (z =? 0).

Definition reflect_body (crc bitnum : Z) (st : Z * Z) (b : nat) : Z * Z :=
  let '(j, crcout) := st in
  let i := Z.shiftl 1 (bitnum - 1 - Z.of_nat b) in
  let crcout := if truthy (Z.land crc i) then Z.lor crcout j else crcout in
  (Z.shiftl j 1, crcout).

(** [reflect(crc, bitnum)]: reflect the lower [bitnum] bits of [crc]. *)
Definition reflect (crc bitnum : Z) : Z :=
  snd (fold_left (reflect_body crc bitnum) (seq 0 (Z.to_nat bitnum)) (1, 0)).

(** Body of the inner loop of [crcbitbybit]; the state is [(crc, j)] and the
    flag tells whether [j == 0] made the loop [break]. *)
Definition shift_in_body (c : Z) (st : Z * Z) : (Z * Z) * bool :=
  let '(crc, j) := st in
  let bit := Z.land crc 0x8000 in
  let crc := Z.shiftl crc 1 in
  let crc := Z.land crc 0xFFFF in
  let crc := if truthy (Z.land c j) then Z.lor crc 1 else crc in
  let crc := if truthy bit then Z.lxor crc 0x1021 else crc in
  let j := Z.shiftr j 1 in
  ((crc, j), j =? 0).

(** One iteration of the outer loop: [c = reflect(ord(p[i]), 8)], [j = 0x80],
    then the inner [for b in range(16)]. *)
Definition crc_byte (crc : Z) (ch : ascii) : Z :=
  let c := reflect (ord ch) 8 in
  fst (for_range_break 16 (shift_in_body c) (crc, 0x80)).

(** Body of the trailing loop: the register is not masked here. *)
Definition augment_body (crc : Z) : Z :=
  let bit := Z.land crc 0x8000 in
  let crc := Z.shiftl crc 1 in
  if truthy bit then Z.lxor crc 0x1021 else crc.

(** [crcbitbybit(p)]. *)
Definition crcbitbybit (p : string) : Z :=
  let crc := fold_left crc_byte (chars p) 0 in
  let crc := Nat.iter 16 augment_body crc in
  reflect crc 16.

(** *** The bit-by-bit reference

    A 16-bit register construction written from the words of the
    specification, to be compared with [crcbitbybit].  [reflect_bits w x]
    is the number whose bit [k] is bit [w - 1 - k] of [x], for [k < w]. *)

Fixpoint reflect_bits_upto (w x : Z) (m : nat) : Z :=
  match m with
  | O => 0
  | S m' => reflect_bits_upto w x m'
            + Z.b2z (Z.testbit x (w - 1 - Z.of_nat m')) * 2 ^ Z.of_nat m'
  end.

Definition reflect_bits (w : nat) (x : Z) : Z :=
  reflect_bits_upto (Z.of_nat w) x w.

(** One shift of the 16-bit register: the top bit is carried out, [inbit]
    enters at the bottom, and the polynomial 0x1021 is XORed in when the
    carried-out bit was set. *)
Definition reg_shift (inbit : bool) (r : Z) : Z :=
  let carry := Z.testbit r 15 in
  let r' := (2 * r + Z.b2z inbit) mod 2 ^ 16 in
  if carry then Z.lxor r' 0x1021 else r'.

(** [rounds] shifts for one input byte: round [k] feeds bit [first - k] of
    the reflected byte, so that [first] is the position of the bit fed
    first; positions outside [0..7] hold a zero. *)
Definition reference_byte (first : Z) (rounds : nat) (r : Z) (ch : ascii) : Z :=
  let c := reflect_bits 8 (ord ch) in
  fold_left (fun r k => reg_shift (Z.testbit c (first - Z.of_nat k)) r)
    (seq 0 rounds) r.

(** The register starts at 0, takes [rounds] shifts for each input byte and
    16 trailing zero shifts, and is bit-reflected at the end. *)
Definition crc16_reference (first : Z) (rounds : nat) (p : string) : Z :=
  let r := fold_left (reference_byte first rounds) (chars p) 0 in
  let r := Nat.iter 16 (reg_shift false) r in
  reflect_bits 16 r.

(** *** class CRC16 *)

Record CRC16 := { val : Z }.

(** [update(self, string)]: [self.val = crcbitbybit(string)]. *)
Definition CRC16_update (self : CRC16) (s : string) : CRC16 :=
  {| val := crcbitbybit s |}.

(** [__init__(self, string='')]: [val] is 0, then [update] when [string] is
    truthy, that is, not empty. *)
Definition CRC16_init (s : string) : CRC16 :=
  let self := {| val := 0 |} in
  match s with
  | EmptyString => self
  | String _ _ => CRC16_update self s
  end.

(** [checksum(self)]: [chr(self.val >> 8) + chr(self.val & 0xff)]. *)
Definition CRC16_checksum (self : CRC16) : result string :=
  hi <-r chr (Z.shiftr (val self) 8);
  lo <-r chr (Z.land (val self) 0xff);
  ok (hi ++ lo)%string.

Definition CRC16_intchecksum (self : CRC16) : Z := val self.

(** The assignment [o.val = v]. *)
Definition set_val (o : CRC16) (v : Z) : CRC16 := {| val := v |}.

(** [copy(self)]: [clone = CRC16()], then [clone.val = self.val]. *)
Definition CRC16_copy (self : CRC16) : CRC16 :=
  let clone := CRC16_init EmptyString in
  set_val clone (val self).

(** The range of [val] that the methods maintain. *)
Definition val_in_range (o : CRC16) : Prop := 0 <= val o < 65536.

(** ** Python objects

    The few kinds of object that reach [struct.pack] and the stub aliases. *)
Inductive pyval :=
| PyNone
| PyInt (z : Z)
| PyStr (s : string)
| PyCRC16 (o : CRC16)                 (* an instance of crc16.CRC16 *)
| PyValueErrorClass                   (* the builtin class ValueError *)
| PyValueErrorInst (arg : pyval).     (* the instance ValueError(arg) *)

(** [struct.pack("<H", v)]: two bytes, low byte first.  An argument that is
    not an integer (and has neither [__index__] nor [__int__], as is the
    case for every non-integer object here) or is outside [0, 0xFFFF]
    raises [struct.error]. *)
Definition struct_pack_H (v : pyval) : result string :=
  match v with
  | PyInt z =>
      if (0 <=? z) && (z <=? 0xFFFF)
      then ok (String (ascii_of_N (Z.to_N (z mod 256)))
              (String (ascii_of_N (Z.to_N (z / 256))) EmptyString))
      else raise StructError
  | _ => raise StructError
  end.

(** Calling an object: the class [ValueError] builds an instance; the other
    objects here are not callable. *)
Definition py_call (f x : pyval) : result pyval :=
  match f with
  | PyValueErrorClass => ok (PyValueErrorInst x)
  | _ => raise TypeError
  end.

(** ** scada.py *)

(** [s[lo:hi]] for indices [0 <= lo <= hi]; Python clamps both to the end of
    the string. *)
Definition py_slice (s : string) (lo hi : nat) : string :=
  substring lo (hi - lo) s.

(** [int(math.ceil(float(n) / d))] for a length [n]: the quotient rounded
    up.  (The float division is exact enough at these magnitudes for the
    ceiling to be the integer one.) *)
Definition ceil_div (n d : Z) : Z := (n + d - 1) / d.

(** A [for] loop over [range(start, start + n)] in the error monad. *)
Fixpoint for_range {St : Type} (start n : nat) (body : nat -> St -> result St)
    (s : St) : result St :=
  match n with
  | O => ok s
  | S n' => s' <-r body start s; for_range (S start) n' body s'
  end.

(** The chunk taken in round [x] of the chunk loop of segment [i]:
    [slice[i * 16: (i + 1) * 16]]. *)
Definition dnp3_chunk (slice : string) (i x : nat) : string :=
  py_slice slice (i * 16) ((i + 1) * 16).

(** Body of the chunk loop, [for x in range(num_chunks)]. *)
Definition dnp3_chunk_body (slice : string) (i x : nat) (p : string) : result string :=
  let chunk := dnp3_chunk slice i x in
  chksum <-r struct_pack_H (PyCRC16 (CRC16_init chunk));
  ok (p ++ (chksum ++ chunk))%string.

(** The fragmentation flags of segment [i]: [frag_number = i], then
    [|= 0x40] when [i == 0] and [|= 0x80] when [i == num_packets - 1]. *)
Definition dnp3_frag_number (num_packets : Z) (i : nat) : Z :=
  let frag_number := Z.of_nat i in
  let frag_number := if Nat.eqb i 0 then Z.lor frag_number 0x40 else frag_number in
  if Z.of_nat i =? num_packets - 1 then Z.lor frag_number 0x80 else frag_number.

(** Body of the segment loop, [for i in range(num_packets)]. *)
Definition dnp3_body (data control_code src dst : string) (num_packets : Z)
    (i : nat) (packets : list string) : result (list string) :=
  let slice := py_slice data (i * 250) ((i + 1) * 250) in
  let p := String (ascii_of_N 0x05) (String (ascii_of_N 0x64) EmptyString) in
  l <-r chr (len slice);
  let p := (p ++ l)%string in
  let p := (p ++ control_code)%string in
  let p := (p ++ dst)%string in
  let p := (p ++ src)%string in
  chksum <-r struct_pack_H (PyCRC16 (CRC16_init p));
  let p := (p ++ chksum)%string in
  let num_chunks := ceil_div (len slice) 16 in
  let frag_number := dnp3_frag_number num_packets i in
  f <-r chr frag_number;
  let p := (p ++ f)%string in
  p <-r for_range 0 (Z.to_nat num_chunks) (dnp3_chunk_body slice i) p;
  ok (packets ++ [p]).

(** [dnp3(data, control_code, src, dst)]. *)
Definition dnp3 (data control_code src dst : string) : result (list string) :=
  let num_packets := ceil_div (len data) 250 in
  for_range 0 (Z.to_nat num_packets) (dnp3_body data control_code src dst num_packets) [].

(** The default arguments: [control_code="\x44"], [src=dst="\x00\x00"]. *)
Definition default_control_code : string := String (ascii_of_N 0x44) EmptyString.
Definition default_address : string := String zero (String zero EmptyString).

Definition dnp3_default (data : string) : result (list string) :=
  dnp3 data default_control_code default_address default_address.

(** A payload of [n] copies of one character. *)
Fixpoint payload (n : nat) (c : ascii) : string :=
  match n with
  | O => EmptyString
  | S n' => String c (payload n' c)
  end.

(** ** sulley.blocks and sulley.primitives

    Neither module is part of the sources at hand; the construction
    functions of [sulley/__init__.py] below are embedded from their code and
    run against the following model of the objects they use. *)

(** Addresses of the objects of a request. *)
Abbreviation loc := nat (only parsing).

(** Modelled from the spec: the classes of [sulley.blocks] and
    [sulley.primitives] whose instances are pushed (static primitive, block,
    checksum, repeat, sizer), each with the arguments it is built from. *)
Inductive item_kind :=
| KStatic
| KBlock (group : option string) (encoder : option (string -> string))
         (dep : option string) (dep_value : pyval) (dep_values : list pyval)
         (dep_compare : string)
| KChecksum (block_name algorithm : string) (length : Z) (endian : string)
| KRepeat (block_name : string) (min_reps : Z) (max_reps : option Z) (step : Z)
          (variable : option loc) (fuzzable : bool)
| KSize (block_name : string) (offset length : Z) (endian format : string)
        (inclusive signed : bool) (math : option (Z -> Z)) (fuzzable : bool).

(** Modelled from the spec: an instance of one of those classes, with its
    optional name. *)
Record item := {
  item_name : option string;
  kind : item_kind;
  value : pyval;              (* the attribute [value] of a primitive *)
  children : list loc         (* the children of a block, in order *)
}.

Definition is_block (it : item) : bool :=
  match kind it with
  | KBlock _ _ _ _ _ _ => true
  | _ => false
  end.

(** Modelled from the spec: the class [sulley.blocks.request].  A Request
    owns the children of its root, the stack of open blocks (innermost last)
    and the table from field name to field; the fields are shared between
    the tree and the table, so they live in a store and are named by
    address. *)
Record request := {
  req_name : string;
  objs : list item;
  stack : list loc;
  block_stack : list loc;
  names : gmap string loc
}.

(** Modelled from the spec: the constructor [sulley.blocks.request(name)],
    which creates an empty Request. *)
Definition new_request (name : string) : request :=
  {| req_name := name; objs := []; stack := []; block_stack := [];
     names := ∅ |}.

(** The names of the open blocks, outermost first. *)
Definition open_names (r : request) : list string :=
  omap (fun l => it ← objs r !! l; item_name it) (block_stack r).

(** Modelled from the spec: the outcome of the test
    [block_name in request.block_stack], whose elements are objects of
    [sulley.blocks]: a block on the stack counts as equal to its name, so
    that the test holds when some open block bears the name. *)
Definition in_block_stack (block_name : string) (r : request) : bool :=
  bool_decide (block_name ∈ open_names r).

(** Every open block is in the name table: the requests that the
    construction functions build are of this kind. *)
Definition open_known (r : request) : bool :=
  forallb (fun n => bool_decide (is_Some (names r !! n))) (open_names r).

Definition add_child (l : loc) (it : item) : item :=
  {| item_name := item_name it; kind := kind it; value := value it;
     children := children it ++ [l] |}.

Definition set_value (v : pyval) (it : item) : item :=
  {| item_name := item_name it; kind := kind it; value := v;
     children := children it |}.

(** Modelled from the spec: [request.push(item)].  A named item is entered
    in the name table, and a name that is already there is refused with
    DuplicateName before anything is changed; the item becomes the last
    child of the innermost open block, or of the root when no block is
    open; a block is then put on the open-block stack. *)
Definition request_push (it : item) (r : request) : result request :=
  let l := List.length (objs r) in
  names' <-r match item_name it with
             | None => ok (names r)
             | Some n =>
                 match names r !! n with
                 | Some _ => raise (SullyRuntimeError DuplicateName)
                 | None => ok (<[n := l]> (names r))
                 end
             end;
  let objs' := objs r ++ [it] in
  let '(objs', stack') :=
    match last (block_stack r) with
    | None => (objs', stack r ++ [l])
    | Some b => (alter (add_child l) b objs', stack r)
    end in
  ok {| req_name := req_name r; objs := objs'; stack := stack';
        block_stack := if is_block it then block_stack r ++ [l] else block_stack r;
        names := names' |}.

(** Modelled from the spec: [request.pop()] closes the most recently opened
    block and fails on an empty stack. *)
Definition request_pop (r : request) : result request :=
  match block_stack r with
  | [] => raise (SullyRuntimeError EmptyStack)
  | _ => ok {| req_name := req_name r; objs := objs r; stack := stack r;
               block_stack := removelast (block_stack r); names := names r |}
  end.

(** Modelled from the spec: what the constructors of the modifier blocks
    ([sulley.blocks.checksum], [size], [repeat]) require of their target: it
    must not be an open block (DanglingReference) and it must be in the name
    table of the request (NotFound). *)
Definition check_target (block_name : string) (r : request) : result unit :=
  if in_block_stack block_name r then raise (SullyRuntimeError DanglingReference)
  else match names r !! block_name with
       | None => raise (SullyRuntimeError NotFound)
       | Some _ => ok tt
       end.

(** Modelled from the spec: the constructor
    [sulley.blocks.checksum(block_name, request, algorithm, length, endian,
    name)]. *)
Definition blocks_checksum (block_name : string) (r : request)
    (algorithm : string) (length : Z) (endian : string) (name : option string)
  : result item :=
  _ <-r check_target block_name r;
  ok {| item_name := name; kind := KChecksum block_name algorithm length endian;
        value := PyNone; children := [] |}.

(** Modelled from the spec: the constructor
    [sulley.blocks.repeat(block_name, request, min_reps, max_reps, step,
    variable, fuzzable, name)]. *)
Definition blocks_repeat (block_name : string) (r : request) (min_reps : Z)
    (max_reps : option Z) (step : Z) (variable : option loc) (fuzzable : bool)
    (name : option string) : result item :=
  _ <-r check_target block_name r;
  ok {| item_name := name;
        kind := KRepeat block_name min_reps max_reps step variable fuzzable;
        value := PyNone; children := [] |}.

(** Modelled from the spec: the constructor
    [sulley.blocks.size(block_name, request, offset, length, endian, format,
    inclusive, signed, math, fuzzable, name)]. *)
Definition blocks_size (block_name : string) (r : request) (offset length : Z)
    (endian format : string) (inclusive signed : bool) (math : option (Z -> Z))
    (fuzzable : bool) (name : option string) : result item :=
  _ <-r check_target block_name r;
  ok {| item_name := name;
        kind := KSize block_name offset length endian format inclusive signed
                  math fuzzable;
        value := PyNone; children := [] |}.

(** Modelled from the spec: [sulley.blocks.block(name, request, ...)]. *)
Definition blocks_block (name : string) (group : option string)
    (encoder : option (string -> string)) (dep : option string)
    (dep_value : pyval) (dep_values : list pyval) (dep_compare : string) : item :=
  {| item_name := Some name;
     kind := KBlock group encoder dep dep_value dep_values dep_compare;
     value := PyNone; children := [] |}.

(** Modelled from the spec: [sulley.primitives.static(value, name)]. *)
Definition primitives_static (v : string) (name : option string) : item :=
  {| item_name := name; kind := KStatic; value := PyStr v; children := [] |}.

(** Modelled from the spec: the module globals [sulley.blocks.REQUESTS], a
    registry of Requests keyed by name, and [sulley.blocks.CURRENT], the
    current Request or [None].  [CURRENT] is the very object stored in
    [REQUESTS] under its name, so it is kept as that name: what is done to
    the current request is seen through the registry. *)
Record blocks := {
  REQUESTS : gmap string request;
  CURRENT : option string
}.

Definition current (st : blocks) : option request :=
  n ← CURRENT st; REQUESTS st !! n.

(** ** The state-and-exception monad of the construction API

    An exception leaves the globals as they were when it was raised. *)
Definition M (A : Type) : Type := blocks -> result A * blocks.

Definition ret {A} (a : A) : M A := fun st => (ok a, st).
Definition throw {A} (e : exn) : M A := fun st => (raise e, st).
Definition lift {A} (r : result A) : M A := fun st => (r, st).

Definition bind {A B} (m : M A) (k : A -> M B) : M B :=
  fun st =>
    match m st with
    | (inl e, st') => (inl e, st')
    | (inr a, st') => k a st'
    end.

Notation "x <~ m ; k" := (bind m (fun x => k))
  (at level 100, m at level 99, right associativity).

(** Reading [sulley.blocks.CURRENT] for an attribute access: on [None] the
    access raises AttributeError. *)
Definition get_current : M request :=
  fun st =>
    match current st with
    | Some r => (ok r, st)
    | None => (raise AttributeError, st)
    end.

(** Storing the mutated current request back. *)
Definition set_current (r : request) : M unit :=
  fun st =>
    match CURRENT st with
    | Some n => (ok tt, {| REQUESTS := <[n := r]> (REQUESTS st); CURRENT := CURRENT st |})
    | None => (raise AttributeError, st)
    end.

(** [sulley.blocks.CURRENT.push(item)]. *)
Definition current_push (it : item) : M unit :=
  r <~ get_current;
  r' <~ lift (request_push it r);
  set_current r'.

(** ** sulley/__init__.py *)

(** [s_initialize(name)]. *)
Definition s_initialize (name : string) : M unit :=
  fun st =>
    match REQUESTS st !! name with
    | Some _ => (raise (SullyRuntimeError DuplicateName), st)
    | None =>
        (ok tt, {| REQUESTS := <[name := new_request name]> (REQUESTS st);
                   CURRENT := Some name |})
    end.

(** [s_switch(name)]. *)
Definition s_switch (name : string) : M unit :=
  fun st =>
    match REQUESTS st !! name with
    | None => (raise (SullyRuntimeError NotFound), st)
    | Some _ => (ok tt, {| REQUESTS := REQUESTS st; CURRENT := Some name |})
    end.

(** [s_block_start(name, group, encoder, dep, dep_value, dep_values,
    dep_compare)]; it returns [True]. *)
Definition s_block_start (name : string) (group : option string)
    (encoder : option (string -> string)) (dep : option string)
    (dep_value : pyval) (dep_values : list pyval) (dep_compare : string) : M bool :=
  let block := blocks_block name group encoder dep dep_value dep_values dep_compare in
  _ <~ current_push block;
  ret true.

(** [s_block_end(name=None)]. *)
Definition s_block_end (name : option string) : M unit :=
  r <~ get_current;
  r' <~ lift (request_pop r);
  set_current r'.

(** [s_checksum(block_name, algorithm, length, endian, name)]. *)
Definition s_checksum (block_name algorithm : string) (length : Z)
    (endian : string) (name : option string) : M unit :=
  r <~ get_current;
  if in_block_stack block_name r
  then throw (SullyRuntimeError DanglingReference)
  else
    checksum <~ lift (blocks_checksum block_name r algorithm length endian name);
    current_push checksum.

(** [s_repeat(block_name, min_reps, max_reps, step, variable, fuzzable,
    name)]: there is no test of its own before the constructor. *)
Definition s_repeat (block_name : string) (min_reps : Z) (max_reps : option Z)
    (step : Z) (variable : option loc) (fuzzable : bool) (name : option string)
  : M unit :=
  r <~ get_current;
  repeat <~ lift (blocks_repeat block_name r min_reps max_reps step variable
                    fuzzable name);
  current_push repeat.

(** [s_size(block_name, offset, length, endian, format, inclusive, signed,
    math, fuzzable, name)]. *)
Definition s_size (block_name : string) (offset length : Z)
    (endian format : string) (inclusive signed : bool) (math : option (Z -> Z))
    (fuzzable : bool) (name : option string) : M unit :=
  r <~ get_current;
  if in_block_stack block_name r
  then throw (SullyRuntimeError DanglingReference)
  else
    size <~ lift (blocks_size block_name r offset length endian format inclusive
                    signed math fuzzable name);
    current_push size.

(** [s_update(name, value)]: [CURRENT.names[name].value = value]. *)
Definition s_update (name : string) (v : pyval) : M unit :=
  r <~ get_current;
  match names r !! name with
  | None => throw (SullyRuntimeError NotFound)
  | Some l =>
      set_current {| req_name := req_name r; objs := alter (set_value v) l (objs r);
                     stack := stack r; block_stack := block_stack r;
                     names := names r |}
  end.

(** [s_static(value, name)]. *)
Definition s_static (v : string) (name : option string) : M unit :=
  current_push (primitives_static v name).

(** *** s_binary *)

(** [s.replace(old, new)] for a non-empty [old]: the occurrences of [old]
    are found from left to right without overlap.  [skip] counts the
    characters of a found occurrence that are still to be passed over. *)
Fixpoint replace_from (old new : string) (skip : nat) (s : string) : string :=
  match s with
  | EmptyString => EmptyString
  | String c t =>
      match skip with
      | S k => replace_from old new k t
      | O =>
          if String.prefix old s
          then (new ++ replace_from old new (String.length old - 1) t)%string
          else String c (replace_from old new 0 t)
      end
  end.

Definition replace (old new s : string) : string := replace_from old new 0 s.

(** The value of a hexadecimal digit. *)
Definition hex_digit (c : ascii) : option Z :=
  let n := ord c in
  if (48 <=? n) && (n <=? 57) then Some (n - 48)            (* 0-9 *)
  else if (97 <=? n) && (n <=? 102) then Some (n - 87)      (* a-f *)
  else if (65 <=? n) && (n <=? 70) then Some (n - 55)       (* A-F *)
  else None.

Fixpoint hex_value (acc : Z) (s : string) : option Z :=
  match s with
  | EmptyString => Some acc
  | String c t => d ← hex_digit c; hex_value (16 * acc + d) t
  end.

(** [int(pair, 16)] on a string of hexadecimal digits.  The other literals
    that [int] accepts (a sign, surrounding white space, a [0X] prefix) are
    not modelled and, like the invalid ones, are given ValueError. *)
Definition int16 (pair : string) : result Z :=
  match pair with
  | EmptyString => raise ValueError
  | _ => match hex_value 0 pair with
         | Some n => ok n
         | None => raise ValueError
         end
  end.

(** The loop [while parsed: pair = parsed[:2]; parsed = parsed[2:];
    value += chr(int(pair, 16))]. *)
Fixpoint parse_pairs (parsed value : string) : result string :=
  match parsed with
  | EmptyString => ok value
  | String a EmptyString =>
      n <-r int16 parsed; c <-r chr n; ok (value ++ c)%string
  | String a (String b rest) =>
      n <-r int16 (String a (String b EmptyString)); c <-r chr n;
      parse_pairs rest (value ++ c)%string
  end.

Definition tab : ascii := ascii_of_N 9.
Definition cr : ascii := ascii_of_N 13.
Definition lf : ascii := ascii_of_N 10.
Definition backslash : ascii := ascii_of_N 92.

(** The parsing part of [s_binary]: the separators are deleted one kind
    after the other, then the digits are read two at a time. *)
Definition s_binary_parse (v : string) : result string :=
  let parsed := v in
  let parsed := replace " " EmptyString parsed in
  let parsed := replace (String tab EmptyString) EmptyString parsed in
  let parsed := replace (String cr EmptyString) EmptyString parsed in
  let parsed := replace (String lf EmptyString) EmptyString parsed in
  let parsed := replace "," EmptyString parsed in
  let parsed := replace "0x" EmptyString parsed in
  let parsed := replace (String backslash "x") EmptyString parsed in
  parse_pairs parsed EmptyString.

(** [s_binary(value, name)]. *)
Definition s_binary (v : string) (name : option string) : M unit :=
  v' <~ lift (s_binary_parse v);
  let static := primitives_static v' name in
  current_push static.

(** The inputs of the raw-hex parser: pairs of hexadecimal digits with
    separators between, before or after them. *)
Inductive token :=
| Pair (a b : ascii)
| Sep0x          (* 0x *)
| SepBx          (* \x *)
| Space
| Tab
| Comma.

Definition token_text (t : token) : string :=
  match t with
  | Pair a b => String a (String b EmptyString)
  | Sep0x => "0x"
  | SepBx => String backslash "x"
  | Space => " "
  | Tab => String tab EmptyString
  | Comma => ","
  end.

Fixpoint text (ts : list token) : string :=
  match ts with
  | [] => EmptyString
  | t :: ts' => (token_text t ++ text ts')%string
  end.

Definition is_hex (c : ascii) : bool :=
  match hex_digit c with Some _ => true | None => false end.

(** Every pair of the token list is made of two hexadecimal digits. *)
Definition hex_token (t : token) : bool :=
  match t with
  | Pair a b => is_hex a && is_hex b
  | _ => true
  end.

Definition hex_pairs (ts : list token) : Prop := forallb hex_token ts = true.

Definition is_pair (t : token) : bool :=
  match t with Pair _ _ => true | _ => false end.

(** The same digits with all separators stripped. *)
Definition strip_separators (ts : list token) : list token := List.filter is_pair ts.

(** The byte that a pair of digits stands for. *)
Definition pair_byte (a b : ascii) : ascii :=
  match hex_digit a, hex_digit b with
  | Some x, Some y => ascii_of_N (Z.to_N (16 * x + y))
  | _, _ => zero
  end.

(** The bytes of the pairs of a token list, one byte for each pair. *)
Fixpoint pair_bytes (ts : list token) : string :=
  match ts with
  | [] => EmptyString
  | Pair a b :: ts' => String (pair_byte a b) (pair_bytes ts')
  | _ :: ts' => pair_bytes ts'
  end.

(** Deleting every occurrence of one character. *)
Fixpoint remove_char_spec (c : ascii) (s : string) : string :=
  match s with
  | EmptyString => EmptyString
  | String d t => if ascii_dec c d then remove_char_spec c t
                  else String d (remove_char_spec c t)
  end.

(** Dropping the tokens of one kind. *)
Definition drop_tokens (sep : token -> bool) (ts : list token) : list token :=
  List.filter (fun t => negb (sep t)) ts.

Definition is_space (t : token) : bool := match t with Space => true | _ => false end.
Definition is_tab (t : token) : bool := match t with Tab => true | _ => false end.
Definition is_comma (t : token) : bool := match t with Comma => true | _ => false end.
Definition is_0x (t : token) : bool := match t with Sep0x => true | _ => false end.
Definition is_bx (t : token) : bool := match t with SepBx => true | _ => false end.

(** *** The stub aliases *)

(** [raise v]: an instance (or the class) of [ValueError] is raised as such;
    raising an object that is not an exception is a TypeError. *)
Definition py_raise {A} (v : pyval) : M A :=
  match v with
  | PyValueErrorInst _ | PyValueErrorClass => throw ValueError
  | _ => throw TypeError
  end.

(** [custom_raise(argument, msg)] returns the function
    [_(x): raise msg(argument(x))]. *)
Definition custom_raise (argument msg : pyval) : pyval -> M unit :=
  fun x =>
    a <~ lift (py_call argument x);
    e <~ lift (py_call msg a);
    py_raise e.

Definition s_string_lf : pyval -> M unit :=
  custom_raise PyValueErrorClass
    (PyStr "NotImplementedError: s_string_lf is not currently implemented, arguments were").
Definition s_string_or_env : pyval -> M unit :=
  custom_raise PyValueErrorClass
    (PyStr "NotImplementedError: s_string_or_env is not currently implemented, arguments were").
Definition s_string_repeat : pyval -> M unit :=
  custom_raise PyValueErrorClass
    (PyStr "NotImplementedError: s_string_repeat is not currently implemented, arguments were").
Definition s_string_variable : pyval -> M unit :=
  custom_raise PyValueErrorClass
    (PyStr "NotImplementedError: s_string_variable is not currently implemented, arguments were").
Definition s_string_variables : pyval -> M unit :=
  custom_raise PyValueErrorClass
    (PyStr "NotImplementedError: s_string_variables is not currently implemented, arguments were").
Definition s_binary_repeat : pyval -> M unit :=
  custom_raise PyValueErrorClass
    (PyStr "NotImplementedError: s_string_variables is not currently implemented, arguments were").
Definition s_unistring_variable : pyval -> M unit :=
  custom_raise PyValueErrorClass
    (PyStr "NotImplementedError: s_unistring_variable is not currently implemented, arguments were").
Definition s_xdr_string : pyval -> M unit :=
  custom_raise PyValueErrorClass
    (PyStr "LegoNotUtilizedError: XDR strings are available in the XDR lego, arguments were").
Definition s_binary_block_size_intel_halfword_plus_variable : pyval -> M unit :=
  custom_raise PyValueErrorClass
    (PyStr "SizerNotUtilizedError: Use the s_size primitive for including sizes, arguments were").
Definition s_binary_block_size_halfword_bigendian_variable : pyval -> M unit :=
  custom_raise PyValueErrorClass
    (PyStr "SizerNotUtilizedError: Use the s_size primitive for including sizes, arguments were").
Definition s_binary_block_size_word_bigendian_plussome : pyval -> M unit :=
  custom_raise PyValueErrorClass
    (PyStr "SizerNotUtilizedError: Use the s_size primitive for including sizes, arguments were").
Definition s_binary_block_size_word_bigendian_variable : pyval -> M unit :=
  custom_raise PyValueErrorClass
    (PyStr "SizerNotUtilizedError: Use the s_size primitive for including sizes, arguments were").
Definition s_binary_block_size_halfword_bigendian_mult : pyval -> M unit :=
  custom_raise PyValueErrorClass
    (PyStr "SizerNotUtilizedError: Use the s_size primitive for including sizes, arguments were").
Definition s_binary_block_size_intel_halfword_variable : pyval -> M unit :=
  custom_raise PyValueErrorClass
    (PyStr "SizerNotUtilizedError: Use the s_size primitive for including sizes, arguments were").
Definition s_binary_block_size_intel_halfword_mult : pyval -> M unit :=
  custom_raise PyValueErrorClass
    (PyStr "SizerNotUtilizedError: Use the s_size primitive for including sizes, arguments were").
Definition s_binary_block_size_intel_halfword_plus : pyval -> M unit :=
  custom_raise PyValueErrorClass
    (PyStr "SizerNotUtilizedError: Use the s_size primitive for including sizes, arguments were").
Definition s_binary_block_size_halfword_bigendian : pyval -> M unit :=
  custom_raise PyValueErrorClass
    (PyStr "SizerNotUtilizedError: Use the s_size primitive for including sizes, arguments were").
Definition s_binary_block_size_word_intel_mult_plus : pyval -> M unit :=
  custom_raise PyValueErrorClass
    (PyStr "SizerNotUtilizedError: Use the s_size primitive for including sizes, arguments were").
Definition s_binary_block_size_intel_word_variable : pyval -> M unit :=
  custom_raise PyValueErrorClass
    (PyStr "SizerNotUtilizedError: Use the s_size primitive for including sizes, arguments were").
Definition s_binary_block_size_word_bigendian_mult : pyval -> M unit :=
  custom_raise PyValueErrorClass
    (PyStr "SizerNotUtilizedError: Use the s_size primitive for including sizes, arguments were").
Definition s_blocksize_unsigned_string_variable : pyval -> M unit :=
  custom_raise PyValueErrorClass
    (PyStr "SizerNotUtilizedError: Use the s_size primitive for including sizes, arguments were").
Definition s_binary_block_size_intel_word_plus : pyval -> M unit :=
  custom_raise PyValueErrorClass
    (PyStr "SizerNotUtilizedError: Use the s_size primitive for including sizes, arguments were").
Definition s_binary_block_size_intel_halfword : pyval -> M unit :=
  custom_raise PyValueErrorClass
    (PyStr "SizerNotUtilizedError: Use the s_size primitive for including sizes, arguments were").
Definition s_binary_block_size_word_bigendian : pyval -> M unit :=
  custom_raise PyValueErrorClass
    (PyStr "SizerNotUtilizedError: Use the s_size primitive for including sizes, arguments were").
Definition s_blocksize_signed_string_variable : pyval -> M unit :=
  custom_raise PyValueErrorClass
    (PyStr "SizerNotUtilizedError: Use the s_size primitive for including sizes, arguments were").
Definition s_binary_block_size_byte_variable : pyval -> M unit :=
  custom_raise PyValueErrorClass
    (PyStr "SizerNotUtilizedError: Use the s_size primitive for including sizes, arguments were").
Definition s_binary_block_size_intel_word : pyval -> M unit :=
  custom_raise PyValueErrorClass
    (PyStr "SizerNotUtilizedError: Use the s_size primitive for including sizes, arguments were").
Definition s_binary_block_size_byte_plus : pyval -> M unit :=
  custom_raise PyValueErrorClass
    (PyStr "SizerNotUtilizedError: Use the s_size primitive for including sizes, arguments were").
Definition s_binary_block_size_byte_mult : pyval -> M unit :=
  custom_raise PyValueErrorClass
    (PyStr "SizerNotUtilizedError: Use the s_size primitive for including sizes, arguments were").
Definition s_blocksize_asciihex_variable : pyval -> M unit :=
  custom_raise PyValueErrorClass
    (PyStr "SizerNotUtilizedError: Use the s_size primitive for including sizes, arguments were").
Definition s_binary_block_size_byte : pyval -> M unit :=
  custom_raise PyValueErrorClass
    (PyStr "SizerNotUtilizedError: Use the s_size primitive for including sizes, arguments were").
Definition s_blocksize_asciihex : pyval -> M unit :=
  custom_raise PyValueErrorClass
    (PyStr "SizerNotUtilizedError: Use the s_size primitive for including sizes, arguments were").
Definition s_blocksize_string : pyval -> M unit :=
  custom_raise PyValueErrorClass
    (PyStr "SizerNotUtilizedError: Use the s_size primitive for including sizes, arguments were").

(** All the aliases defined through [custom_raise]. *)
Definition legacy_stubs : list (pyval -> M unit) :=
  [ s_string_lf;
    s_string_or_env;
    s_string_repeat;
    s_string_variable;
    s_string_variables;
    s_binary_repeat;
    s_unistring_variable;
    s_xdr_string;
    s_binary_block_size_intel_halfword_plus_variable;
    s_binary_block_size_halfword_bigendian_variable;
    s_binary_block_size_word_bigendian_plussome;
    s_binary_block_size_word_bigendian_variable;
    s_binary_block_size_halfword_bigendian_mult;
    s_binary_block_size_intel_halfword_variable;
    s_binary_block_size_intel_halfword_mult;
    s_binary_block_size_intel_halfword_plus;
    s_binary_block_size_halfword_bigendian;
    s_binary_block_size_word_intel_mult_plus;
    s_binary_block_size_intel_word_variable;
    s_binary_block_size_word_bigendian_mult;
    s_blocksize_unsigned_string_variable;
    s_binary_block_size_intel_word_plus;
    s_binary_block_size_intel_halfword;
    s_binary_block_size_word_bigendian;
    s_blocksize_signed_string_variable;
    s_binary_block_size_byte_variable;
    s_binary_block_size_intel_word;
    s_binary_block_size_byte_plus;
    s_binary_block_size_byte_mult;
    s_blocksize_asciihex_variable;
    s_binary_block_size_byte;
    s_blocksize_asciihex;
    s_blocksize_string ].

(** *** A worked example

    The state reached from the initial globals by
    [s_initialize("req"); s_static("AB", name="f"); s_block_start("body")]:
    the request "req" is current, has the field "f", and its block "body"
    is open. *)
Definition initial_state : blocks := {| REQUESTS := ∅; CURRENT := None |}.

Definition example_state : blocks :=
  let st := snd (s_initialize "req" initial_state) in
  let st := snd (s_static "AB" (Some "f"%string) st) in
  snd (s_block_start "body" None None None PyNone [] "==" st).

Definition example_request : request :=
  {| req_name := "req";
     objs := [primitives_static "AB" (Some "f"%string);
              blocks_block "body" None None None PyNone [] "=="];
     stack := [0%nat; 1%nat];
     block_stack := [1%nat];
     names := <["body"%string := 1%nat]> (<["f"%string := 0%nat]> ∅) |}.

(** *** The states that the construction functions reach *)

(** In every registered request, the open blocks are in the name table. *)
Definition blocks_ok (st : blocks) : Prop :=
  forall n r, REQUESTS st !! n = Some r -> open_known r = true.

(** One call of a construction function, whether it returns or raises. *)
Inductive step : blocks -> blocks -> Prop :=
| step_initialize name st :
    step st (snd (s_initialize name st))
| step_switch name st :
    step st (snd (s_switch name st))
| step_block_start name group encoder dep dep_value dep_values dep_compare st :
    step st (snd (s_block_start name group encoder dep dep_value dep_values
                    dep_compare st))
| step_block_end name st :
    step st (snd (s_block_end name st))
| step_checksum block_name algorithm length endian name st :
    step st (snd (s_checksum block_name algorithm length endian name st))
| step_repeat block_name min_reps max_reps stp variable fuzzable name st :
    step st (snd (s_repeat block_name min_reps max_reps stp variable fuzzable
                    name st))
| step_size block_name offset length endian format inclusive signed math
    fuzzable name st :
    step st (snd (s_size block_name offset length endian format inclusive
                    signed math fuzzable name st))
| step_update name v st :
    step st (snd (s_update name v st))
| step_static v name st :
    step st (snd (s_static v name st))
| step_binary v name st :
    step st (snd (s_binary v name st)).

Inductive reachable : blocks -> Prop :=
| reachable_initial : reachable initial_state
| reachable_step st st' : reachable st -> step st st' -> reachable st'.

(** ** The remaining functions of the three files *)

(** *** String formatting *)

(** The hexadecimal digit of a value in [0, 16), in lower case. *)
Definition hex_char (d : Z) : ascii :=
  if d <? 10 then ascii_of_N (Z.to_N (48 + d)) else ascii_of_N (Z.to_N (87 + d)).

(** The [k] lowest hexadecimal digits of [n], the most significant first. *)
Fixpoint hex_digits (k : nat) (n : Z) : string :=
  match k with
  | O => EmptyString
  | S k' => (hex_digits k' (n / 16) ++ String (hex_char (n mod 16)) EmptyString)%string
  end.

(** The number of hexadecimal digits of [n >= 0]; zero has one. *)
Definition hex_len (n : Z) : nat :=
  if n =? 0 then 1%nat else S (Z.to_nat (Z.log2 n / 4)).

(** ['%0Wx' % n]: the digits of [n], padded with zeros on the left up to
    [width] characters, the sign of a negative [n] counting as one. *)
Definition format_0x (width : nat) (n : Z) : string :=
  if n <? 0
  then String "-" (hex_digits (Nat.max (width - 1) (hex_len (- n))) (- n))
  else hex_digits (Nat.max width (hex_len n)) n.

(** [s * n] for a string [s]. *)
Definition repeat_string (s : string) (n : Z) : string :=
  Nat.iter (Z.to_nat n) (append s) EmptyString.

(** *** CRC16.hexchecksum *)

(** [hexchecksum(self)]: ['%04x' % self.val]. *)
Definition CRC16_hexchecksum (self : CRC16) : string := format_0x 4 (val self).

(** *** s_hex_dump *)

(** What the loop [for char in slice] appends for one character. *)
Definition dump_char (c : ascii) : ascii :=
  if (32 <=? ord c) && (ord c <=? 126) then c else "."%char.

(** The loop [for char in slice: ...], which appends to [dump]. *)
Fixpoint dump_slice (dump slice : string) : string :=
  match slice with
  | EmptyString => dump
  | String c t => dump_slice (dump ++ String (dump_char c) EmptyString) t
  end.

(** Body of [for byte in data]; the state is [(dump, slice, addr)]. *)
Definition hex_dump_body (st : string * string * Z) (byte : ascii)
  : string * string * Z :=
  let '(dump, slice, addr) := st in
  let '(dump, slice) :=
    if addr mod 16 =? 0
    then
      let dump := (dump ++ " ")%string in
      let dump := dump_slice dump slice in
      let dump := (dump ++ (String lf (format_0x 4 addr ++ ": ")))%string in
      (dump, EmptyString)
    else (dump, slice) in
  let dump := (dump ++ (format_0x 2 (ord byte) ++ " "))%string in
  let slice := (slice ++ String byte EmptyString)%string in
  (dump, slice, addr + 1).

(** What follows the loop; [addr] is by now the address after the last
    byte. *)
Definition hex_dump_finish (st : string * string * Z) : string :=
  let '(dump, slice, addr) := st in
  let remainder := addr mod 16 in
  let dump :=
    if negb (remainder =? 0)
    then (dump ++ (repeat_string "   " (16 - remainder) ++ " "))%string
    else dump in
  let dump := dump_slice dump slice in
  (dump ++ String lf EmptyString)%string.

(** [s_hex_dump(data, addr=0)]. *)
Definition s_hex_dump (data : string) (addr : Z) : string :=
  hex_dump_finish
    (fold_left hex_dump_body (chars data) (EmptyString, EmptyString, addr)).

(** A character that a terminal shows as such: printable ASCII, or the
    line feed. *)
Definition shown (c : ascii) : bool :=
  Ascii.eqb c lf || ((32 <=? ord c) && (ord c <=? 126)).

(** The number of occurrences of a character in a string. *)
Fixpoint count_char (c : ascii) (s : string) : nat :=
  match s with
  | EmptyString => 0%nat
  | String d t => ((if Ascii.eqb c d then 1 else 0) + count_char c t)%nat
  end.

(** The number of the addresses [addr], ..., [addr + n - 1] that are
    multiples of 16. *)
Fixpoint aligned_addresses (addr : Z) (n : nat) : nat :=
  match n with
  | O => 0%nat
  | S n' => Nat.add (if addr mod 16 =? 0 then 1%nat else 0%nat)
                    (aligned_addresses (addr + 1) n')
  end.

(** *** s_get *)

(** Python truthiness of an optional string: [None] and the empty string
    are false. *)
Definition truthy_name (name : option string) : option string :=
  match name with
  | Some (String c t) => Some (String c t)
  | _ => None
  end.

(** [s_get(name=None)].  The request that is returned is given by the name
    it is registered under ([None] for the Python [None]). *)
Definition s_get (name : option string) : M (option string) :=
  match truthy_name name with
  | None => fun st => (ok (CURRENT st), st)
  | Some n =>
      _ <~ s_switch n;
      fun st =>
        match REQUESTS st !! n with
        | None => (raise (SullyRuntimeError NotFound), st)
        | Some _ => (ok (Some n), st)
        end
  end.

(** *** Bytewise exclusive or

    Used to state that the checksum is linear. *)
Definition xor_char (x y : ascii) : ascii :=
  ascii_of_N (Z.to_N (Z.lxor (ord x) (ord y))).

(** The exclusive or of two strings, as long as the shorter one. *)
Fixpoint xor_strings (a b : string) : string :=
  match a, b with
  | String x a', String y b' => String (xor_char x y) (xor_strings a' b')
  | _, _ => EmptyString
  end.

(** *** Invariants of the globals *)

(** [CURRENT], when it is set, is one of the registered requests. *)
Definition current_registered (st : blocks) : Prop :=
  forall n, CURRENT st = Some n -> is_Some (REQUESTS st !! n).

(** No request of [st] is missing from [st'], and [st'] has its current
    request registered if [st] has. *)
Definition registry_kept (st st' : blocks) : Prop :=
  (forall n, is_Some (REQUESTS st !! n) -> is_Some (REQUESTS st' !! n))
  /\ (current_registered st -> current_registered st').

(** *** Strings of hexadecimal digits *)

Definition hex_string (s : string) : Prop := forallb is_hex (chars s) = true.

(** The byte that a lone digit stands for. *)
Definition digit_byte (d : ascii) : ascii :=
  match hex_digit d with
  | Some x => ascii_of_N (Z.to_N x)
  | None => zero
  end.

(** The bytes of a string of digits read two at a time; a last digit
    without a partner is left out. *)
Fixpoint hex_bytes (s : string) : string :=
  match s with
  | String a (String b t) => String (pair_byte a b) (hex_bytes t)
  | _ => EmptyString
  end.

(** A string of zero bytes but for bit [i] of the byte at position [n]: the
    difference between two strings that differ in that one bit. *)
Definition single_bit (n i m : nat) : string :=
  (payload n zero
   ++ String (ascii_of_N (Z.to_N (2 ^ Z.of_nat i))) (payload m zero))%string.

(** ** Bit-level facts *)

Lemma land_pow2 (x i : Z) :
  0 <= i -> Z.land x (2 ^ i) = Z.b2z (Z.testbit x i) * 2 ^ i.
Proof.
  intros Hi. apply Z.bits_inj'. intros n Hn.
  rewrite Z.land_spec, Z.pow2_bits_eqb, Z.mul_pow2_bits by lia.
  destruct (Z.eqb_spec i n) as [->|Hne].
  - rewrite Z.sub_diag, Z.b2z_bit0, andb_true_r. reflexivity.
  - rewrite andb_false_r. destruct (Z.testbit x i); simpl.
    + symmetry. apply (Z.pow2_bits_false 0). lia.
    + symmetry. apply Z.testbit_0_l.
Qed.

Lemma truthy_land_pow2 (x i : Z) :
  0 <= i -> truthy (Z.land x (2 ^ i)) = Z.testbit x i.
Proof.
  intros Hi. unfold truthy. rewrite land_pow2 by assumption.
  assert (0 < 2 ^ i) by (apply Z.pow_pos_nonneg; lia).
  destruct (Z.testbit x i); simpl.
  - destruct (Z.eqb_spec (1 * 2 ^ i) 0); [lia | reflexivity].
  - reflexivity.
Qed.

Lemma lor_pow2_above (a m : Z) :
  0 <= m -> 0 <= a < 2 ^ m -> Z.lor a (2 ^ m) = a + 2 ^ m.
Proof.
  intros Hm Ha.
  assert (Hl : Z.land a (2 ^ m) = 0).
  { rewrite land_pow2 by assumption.
    replace (Z.testbit a m) with false; [reflexivity|].
    symmetry. destruct (Z.eq_dec a 0) as [->|Hn]; [apply Z.testbit_0_l|].
    apply Z.bits_above_log2; [lia|]. apply Z.log2_lt_pow2; lia. }
  rewrite <- (Z.lxor_lor _ _ Hl). symmetry. apply Z.add_nocarry_lxor, Hl.
Qed.

Lemma lxor_mod_pow2 (a b n : Z) :
  0 <= n -> Z.lxor a b mod 2 ^ n = Z.lxor (a mod 2 ^ n) (b mod 2 ^ n).
Proof.
  intros Hn. apply Z.bits_inj'. intros k Hk.
  rewrite Z.lxor_spec, !Z.testbit_mod_pow2, Z.lxor_spec by assumption.
  destruct (k <? n); reflexivity.
Qed.

(** ** [reflect] computes the bit reversal *)

Lemma reflect_bits_upto_range (w x : Z) (m : nat) :
  0 <= reflect_bits_upto w x m < 2 ^ Z.of_nat m.
Proof.
  induction m as [|m IH]; [simpl; lia|].
  cbn [reflect_bits_upto]. rewrite Nat2Z.inj_succ, Z.pow_succ_r by lia.
  destruct (Z.testbit x (w - 1 - Z.of_nat m)); simpl Z.b2z; lia.
Qed.

Lemma reflect_loop (x w : Z) (m : nat) :
  Z.of_nat m <= w ->
  fold_left (reflect_body x w) (seq 0 m) (1, 0)
  = (2 ^ Z.of_nat m, reflect_bits_upto w x m).
Proof.
  induction m as [|m IH]; intros Hm; [reflexivity|].
  rewrite seq_S, fold_left_app, IH by lia. cbn [fold_left Nat.add reflect_body].
  rewrite (Z.shiftl_mul_pow2 1), Z.mul_1_l by lia.
  rewrite truthy_land_pow2 by lia.
  rewrite Z.shiftl_mul_pow2, Nat2Z.inj_succ, Z.pow_succ_r by lia.
  f_equal; [lia|]. cbn [reflect_bits_upto].
  destruct (Z.testbit x (w - 1 - Z.of_nat m)); simpl Z.b2z.
  - rewrite lor_pow2_above; [lia | lia | apply reflect_bits_upto_range].
  - lia.
Qed.

Lemma reflect_eq (x w : Z) :
  0 <= w -> reflect x w = reflect_bits (Z.to_nat w) x.
Proof.
  intros Hw. unfold reflect, reflect_bits.
  rewrite reflect_loop by lia. rewrite Z2Nat.id by assumption. reflexivity.
Qed.

Lemma reflect_bits_upto_low (w x : Z) (m : nat) :
  reflect_bits_upto w (x mod 2 ^ w) m = reflect_bits_upto w x m.
Proof.
  induction m as [|m IH]; [reflexivity|].
  cbn [reflect_bits_upto]. rewrite IH, Z.mod_pow2_bits_low by lia. reflexivity.
Qed.

Lemma reflect_range (x w : Z) : 0 <= w -> 0 <= reflect x w < 2 ^ w.
Proof.
  intros Hw. rewrite reflect_eq by assumption. unfold reflect_bits.
  rewrite Z2Nat.id by assumption.
  pose proof (reflect_bits_upto_range w x (Z.to_nat w)) as H.
  rewrite Z2Nat.id in H by assumption. exact H.
Qed.

(** ** The register steps *)

Lemma reg_shift_range (b : bool) (r : Z) : 0 <= reg_shift b r < 2 ^ 16.
Proof.
  unfold reg_shift.
  assert (H : 0 <= (2 * r + Z.b2z b) mod 2 ^ 16 < 2 ^ 16)
    by (apply Z.mod_pos_bound; lia).
  destruct (Z.testbit r 15); [|exact H].
  rewrite <- (Z.mod_small _ _ H).
  change 0x1021 with (0x1021 mod 2 ^ 16).
  rewrite <- lxor_mod_pow2 by lia. apply Z.mod_pos_bound. lia.
Qed.

Lemma masked_shift (crc : Z) (b : bool) :
  (if b then Z.lor (Z.land (Z.shiftl crc 1) 0xFFFF) 1
   else Z.land (Z.shiftl crc 1) 0xFFFF)
  = (2 * crc + Z.b2z b) mod 2 ^ 16.
Proof.
  change 0xFFFF with (Z.ones 16).
  rewrite Z.land_ones, Z.shiftl_mul_pow2 by lia.
  change (2 ^ 1) with 2. replace (crc * 2) with (2 * crc) by lia.
  assert (Hd : (2 * crc) mod 2 ^ 16 = 2 * (crc mod 2 ^ 15)).
  { change (2 ^ 16) with (2 * 2 ^ 15). apply Z.mul_mod_distr_l; lia. }
  destruct b; simpl Z.b2z.
  - assert (Hev : Z.land ((2 * crc) mod 2 ^ 16) (2 ^ 0) = 0).
    { rewrite land_pow2, Hd, Z.testbit_even_0 by lia. reflexivity. }
    change 1 with (2 ^ 0) at 1.
    rewrite <- (Z.lxor_lor _ _ Hev), <- (Z.add_nocarry_lxor _ _ Hev).
    change (2 ^ 0) with 1.
    pose proof (Z.mod_pos_bound crc (2 ^ 15) ltac:(lia)) as Hb.
    apply Z.mod_unique with (q := crc / 2 ^ 15).
    + left. lia.
    + rewrite Hd. pose proof (Z.div_mod crc (2 ^ 15) ltac:(lia)). lia.
  - rewrite Z.add_0_r. reflexivity.
Qed.

Lemma shift_in_body_eq (c crc i : Z) :
  0 <= i ->
  shift_in_body c (crc, 2 ^ i)
  = ((reg_shift (Z.testbit c i) crc, Z.shiftr (2 ^ i) 1), Z.shiftr (2 ^ i) 1 =? 0).
Proof.
  intros Hi. unfold shift_in_body, reg_shift.
  change 0x8000 with (2 ^ 15).
  rewrite !truthy_land_pow2 by lia.
  rewrite masked_shift. reflexivity.
Qed.

(** The inner loop leaves through [break] once the mask [j] has been shifted
    out, whatever the bound of its [range]. *)
Lemma shift_loop (c : Z) (top m n : nat) (crc : Z) :
  (m < n)%nat -> (m <= top)%nat ->
  for_range_break n (shift_in_body c) (crc, 2 ^ Z.of_nat m)
  = (fold_left (fun r k => reg_shift (Z.testbit c (Z.of_nat top - Z.of_nat k)) r)
       (seq (top - m) (S m)) crc, 0).
Proof.
  revert n crc. induction m as [|m IH]; intros n crc Hn Htop.
  - destruct n as [|n]; [lia|]. cbn [for_range_break].
    rewrite shift_in_body_eq by lia. cbn [Z.of_nat Z.pow Z.shiftr Z.shiftl Z.eqb Z.opp Pos.iter Z.div2].
    cbn [seq fold_left]. rewrite Nat.sub_0_r, Z.sub_diag. reflexivity.
  - destruct n as [|n]; [lia|]. cbn [for_range_break].
    rewrite shift_in_body_eq by lia.
    assert (Hsh : Z.shiftr (2 ^ Z.of_nat (S m)) 1 = 2 ^ Z.of_nat m).
    { rewrite Z.shiftr_div_pow2, Nat2Z.inj_succ, Z.pow_succ_r by lia.
      change (2 ^ 1) with 2. rewrite Z.mul_comm, Z.div_mul by lia. reflexivity. }
    rewrite Hsh.
    assert (Hnz : (2 ^ Z.of_nat m =? 0) = false).
    { apply Z.eqb_neq. pose proof (Z.pow_pos_nonneg 2 (Z.of_nat m)). lia. }
    rewrite Hnz, IH by lia.
    replace (top - m)%nat with (S (top - S m)) by lia.
    cbn [seq fold_left].
    replace (Z.of_nat top - Z.of_nat (top - S m)) with (Z.of_nat (S m)) by lia.
    reflexivity.
Qed.

Lemma crc_byte_eq (crc : Z) (ch : ascii) :
  crc_byte crc ch = reference_byte 7 8 crc ch.
Proof.
  unfold crc_byte, reference_byte.
  rewrite reflect_eq by lia. change (Z.to_nat 8) with 8%nat.
  change 0x80 with (2 ^ Z.of_nat 7).
  rewrite (shift_loop _ 7 7 16) by lia. reflexivity.
Qed.

Lemma augment_body_mod (crc : Z) :
  augment_body crc mod 2 ^ 16 = reg_shift false (crc mod 2 ^ 16).
Proof.
  unfold augment_body, reg_shift. change 0x8000 with (2 ^ 15).
  rewrite truthy_land_pow2, Z.mod_pow2_bits_low by lia.
  rewrite Z.shiftl_mul_pow2 by lia. change (2 ^ 1) with 2. simpl Z.b2z.
  rewrite Z.add_0_r.
  assert (Hm : (crc * 2) mod 2 ^ 16 = (2 * (crc mod 2 ^ 16)) mod 2 ^ 16).
  { rewrite (Z.mul_comm crc 2), Z.mul_mod_idemp_r by lia. reflexivity. }
  destruct (Z.testbit crc 15).
  - rewrite lxor_mod_pow2, Hm by lia. reflexivity.
  - exact Hm.
Qed.

Lemma augment_iter_mod (n : nat) (crc : Z) :
  Nat.iter n augment_body crc mod 2 ^ 16
  = Nat.iter n (reg_shift false) (crc mod 2 ^ 16).
Proof.
  induction n as [|n IH]; [reflexivity|].
  cbn [Nat.iter nat_rect]. rewrite augment_body_mod. f_equal. exact IH.
Qed.

Lemma reference_byte_range (first : Z) (rounds : nat) (r : Z) (ch : ascii) :
  0 <= r < 2 ^ 16 -> 0 <= reference_byte first rounds r ch < 2 ^ 16.
Proof.
  unfold reference_byte. generalize (reflect_bits 8 (ord ch)). intros c.
  generalize (seq 0 rounds). intros l. revert r.
  induction l as [|k l IH]; intros r Hr; [exact Hr|].
  cbn [fold_left]. apply IH, reg_shift_range.
Qed.

Lemma reference_fold_range (first : Z) (rounds : nat) (l : list ascii) (r : Z) :
  0 <= r < 2 ^ 16 -> 0 <= fold_left (reference_byte first rounds) l r < 2 ^ 16.
Proof.
  revert r. induction l as [|ch l IH]; intros r Hr; [exact Hr|].
  cbn [fold_left]. apply IH, reference_byte_range, Hr.
Qed.

Lemma crc_fold_eq (l : list ascii) (r : Z) :
  fold_left crc_byte l r = fold_left (reference_byte 7 8) l r.
Proof.
  revert r. induction l as [|ch l IH]; intros r; [reflexivity|].
  cbn [fold_left]. rewrite crc_byte_eq. apply IH.
Qed.

(** ** C1 *)

(** C1 (as amended): for every byte string [p], [crcbitbybit p] is the value
    of the bit-by-bit 16-bit register construction with initial value 0 and
    polynomial 0x1021 that shifts in the 8 bits of each reflected input
    byte, most significant first (8 rounds for each byte, not 16), performs
    16 trailing zero-shift rounds and bit-reflects the 16-bit result. *)
Theorem crcbitbybit_reference (p : string) :
  crcbitbybit p = crc16_reference 7 8 p.
Proof.
  unfold crcbitbybit, crc16_reference.
  rewrite reflect_eq by lia. change (Z.to_nat 16) with 16%nat.
  rewrite crc_fold_eq.
  pose proof (reference_fold_range 7 8 (chars p) 0 ltac:(lia)) as Hr.
  set (r := fold_left (reference_byte 7 8) (chars p) 0) in *.
  unfold reflect_bits.
  rewrite <- (reflect_bits_upto_low _ (Nat.iter 16 augment_body r)).
  change (Z.of_nat 16) with 16.
  rewrite augment_iter_mod, (Z.mod_small r) by exact Hr. reflexivity.
Qed.

(** C1 (as stated): with 16 shift rounds for each input byte the register
    construction differs from [crcbitbybit] on the two-byte input "ab",
    whether the 8 bits of a byte come first and 8 zeros follow (the mask of
    the code, 0x80, carried on for 16 rounds) or the byte is fed as a 16-bit
    word, 8 zeros first. *)
Lemma crcbitbybit_not_16_rounds :
  crcbitbybit "ab" <> crc16_reference 7 16 "ab"
  /\ crcbitbybit "ab" <> crc16_reference 15 16 "ab".
Proof. split; vm_compute; discriminate. Qed.

(** The check value of this CRC (polynomial 0x1021, initial value 0, input
    and output reflected) on the usual test string. *)
Example crcbitbybit_check_value : crcbitbybit "123456789" = 0x2189.
Proof. vm_compute. reflexivity. Qed.

(** ** C10 *)

Lemma crcbitbybit_range (s : string) : 0 <= crcbitbybit s < 65536.
Proof. unfold crcbitbybit. apply (reflect_range _ 16). lia. Qed.

Lemma chr_ok (n : Z) :
  0 <= n < 256 -> chr n = ok (String (ascii_of_N (Z.to_N n)) EmptyString).
Proof.
  intros [H0 H1]. unfold chr.
  destruct (Z.leb_spec 0 n); [|lia]. destruct (Z.ltb_spec n 256); [|lia].
  reflexivity.
Qed.

Lemma ord_ascii_of_N (n : Z) : 0 <= n < 256 -> ord (ascii_of_N (Z.to_N n)) = n.
Proof.
  intros Hn. unfold ord. rewrite N_ascii_embedding; [apply Z2N.id; lia|].
  change 256%N with (Z.to_N 256). apply Z2N.inj_lt; lia.
Qed.

Lemma checksum_big_endian (o : CRC16) :
  val_in_range o ->
  exists hi lo : ascii,
    CRC16_checksum o = ok (String hi (String lo EmptyString))
    /\ 256 * ord hi + ord lo = val o.
Proof.
  unfold val_in_range. intros Hv. unfold CRC16_checksum.
  assert (Hhi : 0 <= Z.shiftr (val o) 8 < 256).
  { rewrite Z.shiftr_div_pow2 by lia. change (2 ^ 8) with 256.
    split; [apply Z.div_pos; lia | apply Z.div_lt_upper_bound; lia]. }
  assert (Hlo : Z.land (val o) 0xff = val o mod 256).
  { change 0xff with (Z.ones 8). rewrite Z.land_ones by lia. reflexivity. }
  assert (Hlo' : 0 <= val o mod 256 < 256) by (apply Z.mod_pos_bound; lia).
  rewrite Hlo, !chr_ok by assumption. cbn [rbind ok].
  eexists _, _. split; [reflexivity|].
  rewrite !ord_ascii_of_N by assumption.
  rewrite Z.shiftr_div_pow2 by lia. change (2 ^ 8) with 256.
  pose proof (Z.div_mod (val o) 256 ltac:(lia)). lia.
Qed.

(** C10: [crcbitbybit] returns a value in [0, 65536); [__init__], [update]
    and [copy] keep [val] in that range; on such a [val], [checksum()] is
    exactly two characters, the high byte first; [intchecksum()] is [val];
    and a CRC16 built from the empty string has [val] 0. *)
Theorem CRC16_val_invariant :
  (forall s : string, 0 <= crcbitbybit s < 65536)
  /\ (forall s : string, val_in_range (CRC16_init s))
  /\ (forall (o : CRC16) (s : string), val_in_range (CRC16_update o s))
  /\ (forall o : CRC16, val_in_range o -> val_in_range (CRC16_copy o))
  /\ (forall o : CRC16, val_in_range o ->
        exists hi lo : ascii,
          CRC16_checksum o = ok (String hi (String lo EmptyString))
          /\ 256 * ord hi + ord lo = val o)
  /\ (forall o : CRC16, CRC16_intchecksum o = val o)
  /\ val (CRC16_init EmptyString) = 0.
Proof.
  repeat split.
  - apply crcbitbybit_range.
  - apply crcbitbybit_range.
  - destruct s; simpl; [lia | apply crcbitbybit_range].
  - destruct s; simpl; [lia | apply crcbitbybit_range].
  - apply crcbitbybit_range.
  - apply crcbitbybit_range.
  - apply H.
  - apply H.
  - apply checksum_big_endian.
Qed.

Lemma CRC16_val_invariant_witness :
  val_in_range {| val := 0x2189 |}
  /\ val_in_range (CRC16_copy {| val := 0x2189 |})
  /\ exists hi lo : ascii,
       CRC16_checksum {| val := 0x2189 |} = ok (String hi (String lo EmptyString))
       /\ 256 * ord hi + ord lo = 0x2189.
Proof.
  assert (H : val_in_range {| val := 0x2189 |})
    by (unfold val_in_range; simpl; lia).
  destruct CRC16_val_invariant as (_ & _ & _ & Hcopy & Hsum & _).
  split; [exact H|]. split; [apply Hcopy, H | apply Hsum, H].
Defined.

(** ** The DNP3 framer *)

Lemma substring_length_le (n m : nat) (s : string) :
  (String.length (substring n m s) <= m)%nat.
Proof.
  revert n m. induction s as [|c s IH]; intros n m.
  - destruct n, m; simpl; lia.
  - destruct n as [|n]; destruct m as [|m]; simpl.
    + lia.
    + specialize (IH 0%nat m). lia.
    + apply IH.
    + apply IH.
Qed.

Lemma len_slice_250 (data : string) (i : nat) :
  0 <= len (py_slice data (i * 250) ((i + 1) * 250)) < 256.
Proof.
  unfold len, py_slice.
  pose proof (substring_length_le (i * 250) ((i + 1) * 250 - i * 250) data).
  lia.
Qed.

(** Every round of the segment loop stops at [struct.pack("<H", CRC16(...))]:
    the argument is a CRC16 object, not its integer checksum. *)
Lemma dnp3_body_raises (data control_code src dst : string) (num_packets : Z)
    (i : nat) (packets : list string) :
  dnp3_body data control_code src dst num_packets i packets = raise StructError.
Proof.
  unfold dnp3_body. rewrite chr_ok by apply len_slice_250. reflexivity.
Qed.

Lemma dnp3_nonempty_raises (c : ascii) (data control_code src dst : string) :
  dnp3 (String c data) control_code src dst = raise StructError.
Proof.
  unfold dnp3.
  assert (Hn : exists k, Z.to_nat (ceil_div (len (String c data)) 250) = S k).
  { assert (1 <= ceil_div (len (String c data)) 250).
    { unfold ceil_div, len. cbn [String.length].
      apply Z.div_le_lower_bound; lia. }
    exists (Z.to_nat (ceil_div (len (String c data)) 250) - 1)%nat. lia. }
  destruct Hn as [k ->]. cbn [for_range]. rewrite dnp3_body_raises. reflexivity.
Qed.

(** C2 (what the code does on the claim's inputs): on a payload of 250 bytes
    and on a payload of 251 bytes [dnp3] returns no segment at all, it
    raises struct.error; the flags that the claim names are those that the
    code computes further down, 0xC0 for the only segment of one, 0x40 and
    0x81 for the two segments of two. *)
Theorem dnp3_250_251_raise :
  dnp3_default (payload 250 "A") = raise StructError
  /\ dnp3_default (payload 251 "A") = raise StructError
  /\ dnp3_frag_number 1 0 = 0xC0
  /\ dnp3_frag_number 2 0 = 0x40
  /\ dnp3_frag_number 2 1 = 0x81.
Proof.
  split; [apply dnp3_nonempty_raises|]. split; [apply dnp3_nonempty_raises|].
  repeat split.
Qed.

(** C3 (what the code does): the empty payload gives the empty list of
    segments, and every payload that is not empty makes [dnp3] raise
    struct.error at the header checksum of its first segment, whatever the
    control code and the addresses. *)
Theorem dnp3_segments_raise :
  (forall control_code src dst : string,
     dnp3 EmptyString control_code src dst = ok [])
  /\ (forall (c : ascii) (data control_code src dst : string),
        dnp3 (String c data) control_code src dst = raise StructError).
Proof. split; [reflexivity | apply dnp3_nonempty_raises]. Qed.

(** C4 (what the code does): a 17-byte payload makes [dnp3] raise
    struct.error; and the chunk loop slices with the segment index, so that
    in the first segment every round takes the first 16 bytes again: round 1
    of such a slice is not its 17th byte. *)
Theorem dnp3_chunks_raise :
  dnp3_default "0123456789abcdefg" = raise StructError
  /\ dnp3_chunk "0123456789abcdefg" 0 1 = "0123456789abcdef"%string
  /\ forall (slice : string) (i x : nat),
       dnp3_chunk slice i x = dnp3_chunk slice i 0
       /\ dnp3_chunk_body slice i x EmptyString = raise StructError.
Proof.
  split; [apply dnp3_nonempty_raises|]. split; [reflexivity|].
  intros slice i x. split; reflexivity.
Qed.

(** ** The raw-hex parser *)

Lemma append_assoc (s1 s2 s3 : string) :
  ((s1 ++ s2) ++ s3 = s1 ++ (s2 ++ s3))%string.
Proof. induction s1 as [|c s1 IH]; simpl; [reflexivity | f_equal; exact IH]. Qed.

Lemma append_empty_r (s : string) : (s ++ EmptyString)%string = s.
Proof. induction s as [|c s IH]; simpl; [reflexivity | f_equal; exact IH]. Qed.

Lemma replace_char (c : ascii) (s : string) :
  replace (String c EmptyString) EmptyString s = remove_char_spec c s.
Proof.
  unfold replace. induction s as [|d t IH]; [reflexivity|].
  cbn [replace_from String.prefix remove_char_spec String.length Nat.sub].
  destruct (ascii_dec c d).
  - destruct t; cbn [append]; exact IH.
  - rewrite IH. reflexivity.
Qed.

Lemma remove_char_app (c : ascii) (s1 s2 : string) :
  remove_char_spec c (s1 ++ s2)
  = (remove_char_spec c s1 ++ remove_char_spec c s2)%string.
Proof.
  induction s1 as [|d s1 IH]; simpl; [reflexivity|].
  destruct (ascii_dec c d); simpl; rewrite IH; reflexivity.
Qed.

Lemma hex_differs (c a : ascii) : is_hex a = true -> is_hex c = false -> c <> a.
Proof. intros Ha Hc ->. congruence. Qed.

Lemma hex_pairs_cons (t : token) (ts : list token) :
  hex_pairs (t :: ts) -> hex_token t = true /\ hex_pairs ts.
Proof. unfold hex_pairs. cbn [forallb]. apply andb_true_iff. Qed.

Lemma hex_pairs_drop (sep : token -> bool) (ts : list token) :
  hex_pairs ts -> hex_pairs (drop_tokens sep ts).
Proof.
  unfold hex_pairs, drop_tokens. induction ts as [|t ts IH]; [reflexivity|].
  cbn [forallb List.filter]. intros [Ht Hts]%andb_true_iff.
  destruct (sep t); cbn [negb forallb]; [auto|]. rewrite Ht. auto.
Qed.

(** A one-character separator [c] that is no hexadecimal digit and occurs in
    no other token: deleting the character deletes the tokens [sep]. *)
Lemma remove_char_text (c : ascii) (sep : token -> bool) (ts : list token) :
  is_hex c = false -> c <> "0"%char -> c <> "x"%char -> c <> backslash ->
  (forall t, sep t = true -> token_text t = String c EmptyString) ->
  (forall t, sep t = false -> is_pair t = false ->
             remove_char_spec c (token_text t) = token_text t) ->
  hex_pairs ts ->
  replace (String c EmptyString) EmptyString (text ts) = text (drop_tokens sep ts).
Proof.
  intros Hc H0 Hx Hb Hsep Hother. rewrite replace_char.
  induction ts as [|t ts IH]; [reflexivity|].
  intros [Ht Hts]%hex_pairs_cons. cbn [text drop_tokens List.filter].
  rewrite remove_char_app, (IH Hts). fold (drop_tokens sep ts).
  destruct (sep t) eqn:Es; cbn [negb].
  - rewrite (Hsep t Es). cbn [remove_char_spec].
    destruct (ascii_dec c c); [reflexivity | congruence].
  - cbn [text]. f_equal. destruct t as [a b| | | | |];
      try (apply (Hother _ Es); reflexivity).
    cbn [hex_token] in Ht. apply andb_true_iff in Ht as [Ha Hb'].
    cbn [token_text remove_char_spec].
    destruct (ascii_dec c a) as [E|_]; [exfalso; revert E; apply hex_differs; assumption|].
    destruct (ascii_dec c b) as [E|_]; [exfalso; revert E; apply hex_differs; assumption|].
    reflexivity.
Qed.

Lemma prefix_nil (s : string) : String.prefix EmptyString s = true.
Proof. destruct s; reflexivity. Qed.

Lemma prefix_cons (a b : ascii) (s t : string) :
  String.prefix (String a s) (String b t)
  = if ascii_dec a b then String.prefix s t else false.
Proof. reflexivity. Qed.

Lemma prefix_cons_nil (a : ascii) (s : string) :
  String.prefix (String a s) EmptyString = false.
Proof. reflexivity. Qed.

Lemma ascii_dec_eq {A} (a : ascii) (x y : A) :
  (if ascii_dec a a then x else y) = x.
Proof. destruct (ascii_dec a a); [reflexivity | congruence]. Qed.

Lemma ascii_dec_ne {A} (a b : ascii) (x y : A) :
  a <> b -> (if ascii_dec a b then x else y) = y.
Proof. intros H. destruct (ascii_dec a b); [congruence | reflexivity]. Qed.

Lemma replace_from_skip (old new : string) (k : nat) (c : ascii) (t : string) :
  replace_from old new (S k) (String c t) = replace_from old new k t.
Proof. reflexivity. Qed.

Lemma replace_from_step (old new : string) (c : ascii) (t : string) :
  replace_from old new 0 (String c t)
  = if String.prefix old (String c t)
    then (new ++ replace_from old new (String.length old - 1) t)%string
    else String c (replace_from old new 0 t).
Proof. reflexivity. Qed.

(** A character that does not start the pattern is kept. *)
Lemma replace_from_keep (a b c : ascii) (t : string) :
  a <> c ->
  replace_from (String a (String b EmptyString)) EmptyString 0 (String c t)
  = String c (replace_from (String a (String b EmptyString)) EmptyString 0 t).
Proof.
  intros H. rewrite replace_from_step, prefix_cons, ascii_dec_ne by assumption.
  reflexivity.
Qed.

(** So is one that starts it but is not followed by the rest of it. *)
Lemma replace_from_keep2 (a b c : ascii) (t : string) :
  String.prefix (String b EmptyString) t = false ->
  replace_from (String a (String b EmptyString)) EmptyString 0 (String c t)
  = String c (replace_from (String a (String b EmptyString)) EmptyString 0 t).
Proof.
  intros H. rewrite replace_from_step, prefix_cons.
  destruct (ascii_dec a c); [rewrite H|]; reflexivity.
Qed.

(** An occurrence of the pattern is deleted. *)
Lemma replace_from_hit (a b : ascii) (t : string) :
  replace_from (String a (String b EmptyString)) EmptyString 0
    (String a (String b t))
  = replace_from (String a (String b EmptyString)) EmptyString 0 t.
Proof.
  rewrite replace_from_step, !prefix_cons, !ascii_dec_eq, prefix_nil.
  reflexivity.
Qed.

Lemma prefix_one_ne (b c : ascii) (t : string) :
  b <> c -> String.prefix (String b EmptyString) (String c t) = false.
Proof. intros H. rewrite prefix_cons, ascii_dec_ne by assumption. reflexivity. Qed.

(** No token starts with [x]. *)
Lemma text_not_x (ts : list token) :
  hex_pairs ts -> String.prefix "x" (text ts) = false.
Proof.
  destruct ts as [|t ts]; [reflexivity|].
  intros [Ht _]%hex_pairs_cons. destruct t as [a b| | | | |]; try reflexivity.
  cbn [hex_token] in Ht. apply andb_true_iff in Ht as [Ha _].
  cbn [text token_text append]. apply prefix_one_ne.
  apply hex_differs; [assumption | reflexivity].
Qed.

(** Deleting a two-character separator [a b] whose second character [b]
    starts no token and is no hexadecimal digit, and whose first character
    occurs in no other separator. *)
Lemma replace_pair_text (a b : ascii) (sep : token -> bool) (ts : list token) :
  is_hex b = false ->
  (forall ts', hex_pairs ts' -> String.prefix (String b EmptyString) (text ts') = false) ->
  (forall t, sep t = true -> token_text t = String a (String b EmptyString)) ->
  (forall t, sep t = false -> is_pair t = false ->
     forall rest,
       replace_from (String a (String b EmptyString)) EmptyString 0
         (token_text t ++ rest)
       = (token_text t
          ++ replace_from (String a (String b EmptyString)) EmptyString 0 rest)%string) ->
  hex_pairs ts ->
  replace (String a (String b EmptyString)) EmptyString (text ts)
  = text (drop_tokens sep ts).
Proof.
  intros Hb Hhead Hsep Hother. unfold replace.
  induction ts as [|t ts IH]; [reflexivity|].
  intros [Ht Hts]%hex_pairs_cons. specialize (IH Hts).
  cbn [text drop_tokens List.filter]. fold (drop_tokens sep ts).
  destruct (sep t) eqn:Es; cbn [negb].
  - rewrite (Hsep t Es). cbn [append]. rewrite replace_from_hit. exact IH.
  - cbn [text]. rewrite <- IH. destruct t as [c d| | | | |];
      try (apply (Hother _ Es); reflexivity).
    cbn [hex_token] in Ht. apply andb_true_iff in Ht as [Hc Hd].
    cbn [token_text append].
    rewrite replace_from_keep2.
    + rewrite replace_from_keep2; [reflexivity | apply Hhead, Hts].
    + apply prefix_one_ne. apply hex_differs; assumption.
Qed.

Lemma replace_0x_text (ts : list token) :
  hex_pairs ts -> replace "0x" EmptyString (text ts) = text (drop_tokens is_0x ts).
Proof.
  apply replace_pair_text.
  - reflexivity.
  - apply text_not_x.
  - intros [] E; try discriminate E. reflexivity.
  - intros [c d| | | | |] E Hp rest; try discriminate E; try discriminate Hp;
      cbn [token_text append].
    + rewrite replace_from_keep by discriminate.
      rewrite replace_from_keep by discriminate. reflexivity.
    + rewrite replace_from_keep by discriminate. reflexivity.
    + rewrite replace_from_keep by discriminate. reflexivity.
    + rewrite replace_from_keep by discriminate. reflexivity.
Qed.

Lemma replace_bx_text (ts : list token) :
  hex_pairs ts ->
  replace (String backslash "x") EmptyString (text ts) = text (drop_tokens is_bx ts).
Proof.
  apply replace_pair_text.
  - reflexivity.
  - apply text_not_x.
  - intros [] E; try discriminate E. reflexivity.
  - intros [c d| | | | |] E Hp rest; try discriminate E; try discriminate Hp;
      cbn [token_text append].
    + rewrite replace_from_keep by discriminate.
      rewrite replace_from_keep by discriminate. reflexivity.
    + rewrite replace_from_keep by discriminate. reflexivity.
    + rewrite replace_from_keep by discriminate. reflexivity.
    + rewrite replace_from_keep by discriminate. reflexivity.
Qed.

Lemma replace_space_text (ts : list token) :
  hex_pairs ts -> replace " " EmptyString (text ts) = text (drop_tokens is_space ts).
Proof.
  apply remove_char_text; try discriminate; try reflexivity.
  - intros [] E; try discriminate E. reflexivity.
  - intros [] E Hp; try discriminate E; try discriminate Hp; reflexivity.
Qed.

Lemma replace_tab_text (ts : list token) :
  hex_pairs ts ->
  replace (String tab EmptyString) EmptyString (text ts) = text (drop_tokens is_tab ts).
Proof.
  apply remove_char_text; try discriminate; try reflexivity.
  - intros [] E; try discriminate E. reflexivity.
  - intros [] E Hp; try discriminate E; try discriminate Hp; reflexivity.
Qed.

Lemma replace_comma_text (ts : list token) :
  hex_pairs ts -> replace "," EmptyString (text ts) = text (drop_tokens is_comma ts).
Proof.
  apply remove_char_text; try discriminate; try reflexivity.
  - intros [] E; try discriminate E. reflexivity.
  - intros [] E Hp; try discriminate E; try discriminate Hp; reflexivity.
Qed.

Lemma drop_none (ts : list token) : drop_tokens (fun _ => false) ts = ts.
Proof.
  unfold drop_tokens. induction ts as [|t ts IH]; simpl; [reflexivity|].
  f_equal. exact IH.
Qed.

(** Carriage returns and line feeds occur in no token. *)
Lemma replace_cr_text (ts : list token) :
  hex_pairs ts -> replace (String cr EmptyString) EmptyString (text ts) = text ts.
Proof.
  intros H. rewrite <- (drop_none ts) at 2. revert H.
  apply remove_char_text; try discriminate; try reflexivity.
  intros [] E Hp; try discriminate Hp; reflexivity.
Qed.

Lemma replace_lf_text (ts : list token) :
  hex_pairs ts -> replace (String lf EmptyString) EmptyString (text ts) = text ts.
Proof.
  intros H. rewrite <- (drop_none ts) at 2. revert H.
  apply remove_char_text; try discriminate; try reflexivity.
  intros [] E Hp; try discriminate Hp; reflexivity.
Qed.

Lemma drop_all_separators (ts : list token) :
  drop_tokens is_bx (drop_tokens is_0x (drop_tokens is_comma
    (drop_tokens is_tab (drop_tokens is_space ts))))
  = strip_separators ts.
Proof.
  unfold drop_tokens, strip_separators.
  induction ts as [|t ts IH]; [reflexivity|].
  destruct t; simpl; rewrite <- IH; reflexivity.
Qed.

Lemma hex_digit_range (c : ascii) (d : Z) : hex_digit c = Some d -> 0 <= d < 16.
Proof.
  unfold hex_digit. intros H.
  destruct ((48 <=? ord c) && (ord c <=? 57)) eqn:E1.
  { apply andb_true_iff in E1 as [?%Z.leb_le ?%Z.leb_le]. inversion H. lia. }
  destruct ((97 <=? ord c) && (ord c <=? 102)) eqn:E2.
  { apply andb_true_iff in E2 as [?%Z.leb_le ?%Z.leb_le]. inversion H. lia. }
  destruct ((65 <=? ord c) && (ord c <=? 70)) eqn:E3.
  { apply andb_true_iff in E3 as [?%Z.leb_le ?%Z.leb_le]. inversion H. lia. }
  discriminate H.
Qed.

Lemma int16_pair (a b : ascii) :
  is_hex a = true -> is_hex b = true ->
  (n <-r int16 (String a (String b EmptyString)); chr n)
  = ok (String (pair_byte a b) EmptyString).
Proof.
  unfold is_hex, int16, pair_byte. cbn [hex_value].
  destruct (hex_digit a) as [x|] eqn:Ea; [|discriminate].
  destruct (hex_digit b) as [y|] eqn:Eb; [|discriminate]. intros _ _.
  apply hex_digit_range in Ea, Eb. cbn [mbind option_bind rbind ok].
  rewrite chr_ok by lia. repeat f_equal; lia.
Qed.

Lemma parse_pairs_text (ts : list token) (acc : string) :
  hex_pairs ts ->
  parse_pairs (text (strip_separators ts)) acc = ok (acc ++ pair_bytes ts)%string.
Proof.
  revert acc. induction ts as [|t ts IH]; intros acc.
  - intros _. cbn [strip_separators List.filter text parse_pairs pair_bytes].
    rewrite append_empty_r. reflexivity.
  - intros [Ht Hts]%hex_pairs_cons. destruct t as [a b| | | | |];
      cbn [strip_separators List.filter is_pair text pair_bytes];
      fold (strip_separators ts); try (apply IH, Hts).
    cbn [hex_token] in Ht. apply andb_true_iff in Ht as [Ha Hb].
    cbn [token_text append parse_pairs].
    pose proof (int16_pair a b Ha Hb) as Hp.
    destruct (int16 (String a (String b EmptyString))) as [e|n];
      [discriminate Hp|]. cbn [rbind] in Hp |- *. rewrite Hp. cbn [rbind ok].
    rewrite IH by exact Hts. rewrite append_assoc. reflexivity.
Qed.

Lemma s_binary_parse_text (ts : list token) :
  hex_pairs ts -> s_binary_parse (text ts) = ok (pair_bytes ts).
Proof.
  intros H. unfold s_binary_parse.
  rewrite replace_space_text by exact H.
  rewrite replace_tab_text by (apply hex_pairs_drop, H).
  rewrite replace_cr_text by (do 2 apply hex_pairs_drop; exact H).
  rewrite replace_lf_text by (do 2 apply hex_pairs_drop; exact H).
  rewrite replace_comma_text by (do 2 apply hex_pairs_drop; exact H).
  rewrite replace_0x_text by (do 3 apply hex_pairs_drop; exact H).
  rewrite replace_bx_text by (do 4 apply hex_pairs_drop; exact H).
  rewrite drop_all_separators. apply (parse_pairs_text ts EmptyString H).
Qed.

Lemma strip_separators_idem (ts : list token) :
  strip_separators (strip_separators ts) = strip_separators ts.
Proof.
  unfold strip_separators. induction ts as [|t ts IH]; [reflexivity|].
  destruct t; simpl; rewrite ?IH; reflexivity.
Qed.

Lemma pair_bytes_strip (ts : list token) :
  pair_bytes (strip_separators ts) = pair_bytes ts.
Proof.
  unfold strip_separators. induction ts as [|t ts IH]; [reflexivity|].
  destruct t; simpl; rewrite ?IH; reflexivity.
Qed.

Lemma hex_pairs_strip (ts : list token) :
  hex_pairs ts -> hex_pairs (strip_separators ts).
Proof.
  unfold hex_pairs, strip_separators. induction ts as [|t ts IH]; [reflexivity|].
  cbn [forallb List.filter]. intros [Ht Hts]%andb_true_iff.
  destruct (is_pair t); cbn [forallb]; [rewrite Ht|]; auto.
Qed.

(** ** C5 *)

(** C5: for a sequence of pairs of hexadecimal digits with any of the
    separators [0x], [\x], space, tab and comma put between (or around)
    the pairs, [s_binary] parses the same byte string as from the digits
    alone, one byte for each pair, and pushes the same static. *)
Theorem s_binary_separators (ts : list token) (name : option string) (st : blocks) :
  hex_pairs ts ->
  s_binary_parse (text ts) = ok (pair_bytes ts)
  /\ s_binary_parse (text (strip_separators ts)) = ok (pair_bytes ts)
  /\ s_binary (text ts) name st = s_binary (text (strip_separators ts)) name st.
Proof.
  intros H.
  assert (H1 : s_binary_parse (text ts) = ok (pair_bytes ts))
    by (apply s_binary_parse_text, H).
  assert (H2 : s_binary_parse (text (strip_separators ts)) = ok (pair_bytes ts)).
  { rewrite s_binary_parse_text by (apply hex_pairs_strip, H).
    rewrite pair_bytes_strip. reflexivity. }
  split; [exact H1|]. split; [exact H2|].
  unfold s_binary, bind, lift. rewrite H1, H2. reflexivity.
Qed.

Lemma s_binary_separators_witness :
  let ts := [Sep0x; Pair "4" "1"; Comma; Space; SepBx; Pair "4" "2"; Tab;
             Pair "d" "E"] in
  let st := {| REQUESTS := ∅; CURRENT := None |} in
  hex_pairs ts
  /\ s_binary_parse (text ts) = ok (pair_bytes ts)
  /\ s_binary_parse (text (strip_separators ts)) = ok (pair_bytes ts)
  /\ s_binary (text ts) None st = s_binary (text (strip_separators ts)) None st.
Proof.
  intros ts st.
  assert (H : hex_pairs ts) by reflexivity.
  split; [exact H | exact (s_binary_separators ts None st H)].
Defined.

(** Occurrences are taken from the left and do not overlap. *)
Example replace_non_overlapping :
  replace "aa" "b" "aaa" = "ba"%string
  /\ replace "0x" EmptyString "100x41" = "1041"%string.
Proof. split; reflexivity. Qed.

Example s_binary_parse_example :
  s_binary_parse "0x41, 0x42\x43 44" = ok "ABCD"%string.
Proof. vm_compute. reflexivity. Qed.

(** ** C6 *)

(** C6: [s_initialize name] fails, with DuplicateName, exactly when a
    Request named [name] is registered, and then leaves the registry and
    the current Request as they were; otherwise it registers a new, empty
    Request under [name], which becomes the current one, and leaves the
    other entries of the registry alone. *)
Theorem s_initialize_spec (name : string) (st : blocks) :
  (fst (s_initialize name st) = raise (SullyRuntimeError DuplicateName)
   <-> is_Some (REQUESTS st !! name))
  /\ (is_Some (REQUESTS st !! name) -> snd (s_initialize name st) = st)
  /\ (REQUESTS st !! name = None ->
      let st' := snd (s_initialize name st) in
      fst (s_initialize name st) = ok tt
      /\ REQUESTS st' !! name = Some (new_request name)
      /\ CURRENT st' = Some name
      /\ current st' = Some (new_request name)
      /\ (forall n, n <> name -> REQUESTS st' !! n = REQUESTS st !! n)
      /\ objs (new_request name) = [] /\ stack (new_request name) = []
      /\ block_stack (new_request name) = [] /\ names (new_request name) = ∅).
Proof.
  unfold s_initialize. destruct (REQUESTS st !! name) as [r|] eqn:E.
  - split; [split; [eauto | reflexivity]|]. split; [reflexivity|]. discriminate.
  - split; [split; [discriminate | intros [? [=]]]|].
    split; [intros [? [=]]|]. intros _. cbn [fst snd REQUESTS CURRENT].
    split; [reflexivity|]. split; [apply lookup_insert_eq|].
    split; [reflexivity|].
    split; [unfold current; cbn; apply lookup_insert_eq|].
    split; [intros n Hn; apply lookup_insert_ne; congruence|].
    repeat split.
Qed.

Lemma s_initialize_spec_witness :
  let st0 := {| REQUESTS := ∅; CURRENT := None |} in
  let st1 := {| REQUESTS := {[ "req"%string := new_request "req" ]};
                CURRENT := Some "req"%string |} in
  (fst (s_initialize "req" st0) = ok tt
   /\ current (snd (s_initialize "req" st0)) = Some (new_request "req"))
  /\ snd (s_initialize "req" st1) = st1.
Proof.
  intros st0 st1.
  assert (H0 : REQUESTS st0 !! "req"%string = None) by reflexivity.
  assert (H1 : is_Some (REQUESTS st1 !! "req"%string))
    by (exists (new_request "req"); reflexivity).
  destruct (s_initialize_spec "req" st0) as (_ & _ & Hok).
  destruct (s_initialize_spec "req" st1) as (_ & Hfail & _).
  destruct (Hok H0) as (Hr & _ & _ & Hc & _).
  split; [split; [exact Hr | exact Hc] | exact (Hfail H1)].
Defined.

(** ** C8 *)

Lemma current_some (st : blocks) (r : request) :
  current st = Some r ->
  exists n, CURRENT st = Some n /\ REQUESTS st !! n = Some r.
Proof.
  unfold current. destruct (CURRENT st) as [n|]; [|discriminate].
  cbn. intros H. exists n. split; [reflexivity | exact H].
Qed.

Lemma get_current_some (st : blocks) (r : request) :
  current st = Some r -> get_current st = (ok r, st).
Proof. unfold get_current. intros ->. reflexivity. Qed.

(** C8: [s_switch] on a name with no registered Request fails with NotFound
    and changes nothing; [s_update] on a name that is not in the name table
    of the current Request fails with NotFound and changes nothing; on a
    name that is there it sets the value of that field and of no other, and
    touches nothing else of the Request nor any other Request. *)
Theorem s_switch_update_spec :
  (forall (name : string) (st : blocks),
     REQUESTS st !! name = None ->
     s_switch name st = (raise (SullyRuntimeError NotFound), st))
  /\ (forall (name : string) (v : pyval) (st : blocks) (r : request),
        current st = Some r -> names r !! name = None ->
        s_update name v st = (raise (SullyRuntimeError NotFound), st))
  /\ (forall (name : string) (v : pyval) (st : blocks) (r : request) (l : loc),
        current st = Some r -> names r !! name = Some l ->
        exists (st' : blocks) (r' : request),
          s_update name v st = (ok tt, st')
          /\ CURRENT st' = CURRENT st
          /\ current st' = Some r'
          /\ req_name r' = req_name r /\ names r' = names r
          /\ stack r' = stack r /\ block_stack r' = block_stack r
          /\ objs r' !! l = set_value v <$> objs r !! l
          /\ (forall l', l' <> l -> objs r' !! l' = objs r !! l')
          /\ (forall n, CURRENT st <> Some n -> REQUESTS st' !! n = REQUESTS st !! n)).
Proof.
  split; [|split].
  - intros name st H. unfold s_switch. rewrite H. reflexivity.
  - intros name v st r Hc Hn. unfold s_update, bind.
    rewrite (get_current_some _ _ Hc). unfold ok. cbn beta iota.
    rewrite Hn. reflexivity.
  - intros name v st r l Hc Hn.
    destruct (current_some _ _ Hc) as (n & Hcur & Hreq).
    unfold s_update, bind. rewrite (get_current_some _ _ Hc).
    unfold ok. cbn beta iota. rewrite Hn.
    unfold set_current. rewrite Hcur.
    eexists _, _. split; [reflexivity|]. cbn [CURRENT REQUESTS].
    split; [reflexivity|].
    split; [unfold current; cbn; apply lookup_insert_eq|].
    cbn [req_name names stack block_stack objs].
    do 4 (split; [reflexivity|]).
    split; [apply list_lookup_alter_eq|].
    split; [intros l' Hl; apply list_lookup_alter_ne; congruence|].
    intros m Hm. apply lookup_insert_ne. congruence.
Qed.

Lemma example_current : current example_state = Some example_request.
Proof. reflexivity. Qed.

Lemma s_switch_update_spec_witness :
  s_switch "other" example_state
    = (raise (SullyRuntimeError NotFound), example_state)
  /\ s_update "g" (PyStr "CD") example_state
     = (raise (SullyRuntimeError NotFound), example_state)
  /\ exists (st' : blocks) (r' : request),
       s_update "f" (PyStr "CD") example_state = (ok tt, st')
       /\ current st' = Some r'
       /\ objs r' !! 0%nat = Some (primitives_static "CD" (Some "f"%string))
       /\ objs r' !! 1%nat = objs example_request !! 1%nat.
Proof.
  destruct s_switch_update_spec as (Hsw & Hnf & Hup).
  assert (Hr : REQUESTS example_state !! "other"%string = None) by reflexivity.
  assert (Hc : current example_state = Some example_request) by reflexivity.
  assert (Hg : names example_request !! "g"%string = None) by reflexivity.
  assert (Hf : names example_request !! "f"%string = Some 0%nat) by reflexivity.
  split; [exact (Hsw _ _ Hr)|]. split; [exact (Hnf _ (PyStr "CD") _ _ Hc Hg)|].
  destruct (Hup _ (PyStr "CD") _ _ _ Hc Hf)
    as (st' & r' & Hrun & _ & Hc' & _ & _ & _ & _ & Hl & Hother & _).
  exists st', r'. split; [exact Hrun|]. split; [exact Hc'|].
  split; [exact Hl | apply Hother; discriminate].
Defined.

(** ** Open blocks are named *)

Lemma open_known_spec (r : request) :
  open_known r = true
  <-> forall n, n ∈ open_names r -> is_Some (names r !! n).
Proof.
  unfold open_known. rewrite forallb_forall. split.
  - intros H n Hn. apply list_elem_of_In in Hn.
    apply H in Hn. apply bool_decide_eq_true in Hn. exact Hn.
  - intros H n Hn. apply bool_decide_eq_true, H, list_elem_of_In, Hn.
Qed.

Lemma open_known_closed (r : request) (n : string) :
  open_known r = true -> names r !! n = None -> in_block_stack n r = false.
Proof.
  intros Hk Hn. unfold in_block_stack. apply bool_decide_eq_false.
  intros Hin. apply (proj1 (open_known_spec r) Hk) in Hin.
  rewrite Hn in Hin. destruct Hin as [? [=]].
Qed.

Lemma new_request_open_known (name : string) : open_known (new_request name) = true.
Proof. reflexivity. Qed.

Lemma elem_of_removelast {A} (x : A) (l : list A) :
  x ∈ removelast l -> x ∈ l.
Proof.
  induction l as [|a l IH]; [intros H; exact H|].
  destruct l as [|b l]; cbn [removelast].
  - intros H. inversion H.
  - intros [->|H]%elem_of_cons; [left | right; apply IH, H].
Qed.

Lemma request_pop_open_known (r r' : request) :
  open_known r = true -> request_pop r = ok r' -> open_known r' = true.
Proof.
  rewrite !open_known_spec. unfold request_pop, open_names.
  destruct (block_stack r) as [|b bs] eqn:E; [discriminate|].
  intros H [= <-] n. cbn [objs block_stack names].
  rewrite list_elem_of_omap. intros (l & Hl & Hname).
  apply H. rewrite list_elem_of_omap. exists l. split; [|exact Hname].
  apply elem_of_removelast, Hl.
Qed.

Lemma request_push_open_known (it : item) (r r' : request) :
  open_known r = true -> request_push it r = ok r' -> open_known r' = true.
Proof.
  rewrite !open_known_spec. intros H Hpush n Hn.
  unfold request_push in Hpush.
  set (l0 := List.length (objs r)) in *.
  (* the name table after the push, and the name of the pushed item in it *)
  assert (Hnames : exists names',
             names r ⊆ names'
             /\ (forall m, item_name it = Some m -> is_Some (names' !! m))
             /\ names r' = names'
             /\ (forall l m,
                   (objs r' !! l ≫= item_name) = Some m ->
                   ((objs r ++ [it]) !! l ≫= item_name) = Some m)
             /\ (forall l, l ∈ block_stack r' -> l ∈ block_stack r \/ l = l0)).
  { destruct (item_name it) as [m|] eqn:Em.
    - destruct (names r !! m) as [?|] eqn:El; [discriminate Hpush|].
      exists (<[m := l0]> (names r)).
      split; [apply insert_subseteq, El|].
      split; [intros m' [= <-]; rewrite lookup_insert_eq; eauto|].
      unfold ok in Hpush; cbn [rbind] in Hpush.
      destruct (last (block_stack r)) as [b|]; simplify_eq;
        cbn [names objs block_stack];
        (split; [reflexivity|]); split.
      + intros l m'.
        destruct (decide (b = l)) as [->|Hne];
          [rewrite list_lookup_alter_eq
          | rewrite list_lookup_alter_ne by exact Hne; auto].
        destruct ((objs r ++ [it]) !! l); cbn; [auto | discriminate].
      + intros l. destruct (is_block it); [|auto].
        intros [Hl|Hl%list_elem_of_singleton]%elem_of_app; auto.
      + auto.
      + intros l. destruct (is_block it); [|auto].
        intros [Hl|Hl%list_elem_of_singleton]%elem_of_app; auto.
    - exists (names r). split; [reflexivity|]. split; [discriminate|].
      unfold ok in Hpush; cbn [rbind] in Hpush.
      destruct (last (block_stack r)) as [b|]; injection Hpush as <-;
        cbn [names objs block_stack];
        (split; [reflexivity|]); split.
      + intros l m'.
        destruct (decide (b = l)) as [->|Hne];
          [rewrite list_lookup_alter_eq
          | rewrite list_lookup_alter_ne by exact Hne; auto].
        destruct ((objs r ++ [it]) !! l); cbn; [auto | discriminate].
      + intros l. destruct (is_block it); [|auto].
        intros [Hl|Hl%list_elem_of_singleton]%elem_of_app; auto.
      + auto.
      + intros l. destruct (is_block it); [|auto].
        intros [Hl|Hl%list_elem_of_singleton]%elem_of_app; auto. }
  destruct Hnames as (names' & Hsub & Hnew & -> & Hobjs & Hstack).
  unfold open_names in Hn. apply list_elem_of_omap in Hn as (l & Hl & Hname).
  apply Hobjs in Hname. apply Hstack in Hl as [Hl | ->].
  - destruct (decide (l < l0)%nat) as [Hlt|Hge].
    + rewrite lookup_app_l in Hname by exact Hlt.
      assert (Hin : n ∈ open_names r)
        by (apply list_elem_of_omap; exists l; auto).
      destruct (H n Hin) as [x Hx]. exists x.
      eapply lookup_weaken; eassumption.
    + destruct (decide (l = l0)) as [->|Hne].
      * rewrite list_lookup_middle in Hname by reflexivity. apply Hnew, Hname.
      * rewrite lookup_ge_None_2 in Hname; [discriminate|].
        rewrite length_app. cbn. unfold l0 in *. lia.
  - rewrite list_lookup_middle in Hname by reflexivity. apply Hnew, Hname.
Qed.

Lemma set_value_name (os : list item) (v : pyval) (l l' : loc) :
  alter (set_value v) l os !! l' ≫= item_name = os !! l' ≫= item_name.
Proof.
  destruct (decide (l = l')) as [->|Hne].
  - rewrite list_lookup_alter_eq. destruct (os !! l'); reflexivity.
  - rewrite list_lookup_alter_ne by exact Hne. reflexivity.
Qed.

Lemma set_value_open_names (r : request) (v : pyval) (l : loc) :
  omap (fun l' => it ← alter (set_value v) l (objs r) !! l'; item_name it)
       (block_stack r)
  = open_names r.
Proof.
  unfold open_names. induction (block_stack r) as [|b bs IH]; [reflexivity|].
  cbn [omap list_omap]. rewrite IH.
  change (alter (set_value v) l (objs r) !! b ≫= (fun it => item_name it))
    with (alter (set_value v) l (objs r) !! b ≫= item_name).
  rewrite set_value_name. reflexivity.
Qed.

Lemma set_current_ok (r' : request) (st : blocks) :
  blocks_ok st -> open_known r' = true -> blocks_ok (snd (set_current r' st)).
Proof.
  intros Hst Hr'. unfold set_current.
  destruct (CURRENT st) as [c|]; [|exact Hst].
  intros n r. cbn [snd REQUESTS]. rewrite lookup_insert.
  destruct (decide (c = n)); [intros [= <-]; exact Hr' | apply Hst].
Qed.

Lemma current_ok (st : blocks) (r : request) :
  blocks_ok st -> current st = Some r -> open_known r = true.
Proof.
  intros Hst Hc. destruct (current_some _ _ Hc) as (n & _ & Hn).
  exact (Hst _ _ Hn).
Qed.

(** Runs the prefix [r <~ get_current] of a construction function. *)
Ltac run_get_current st :=
  unfold bind at 1; unfold get_current;
  let r := fresh "r" in
  let Hc := fresh "Hc" in
  destruct (current st) as [r|] eqn:Hc; unfold ok, raise; cbn beta iota.

Lemma current_push_ok (it : item) (st : blocks) :
  blocks_ok st -> blocks_ok (snd (current_push it st)).
Proof.
  intros Hst. unfold current_push. run_get_current st; [|exact Hst].
  unfold bind, lift. destruct (request_push it r) as [e|r'] eqn:Hp; [exact Hst|].
  apply set_current_ok; [exact Hst|].
  eapply request_push_open_known; [eapply current_ok; eassumption | exact Hp].
Qed.

Lemma step_ok (st st' : blocks) : blocks_ok st -> step st st' -> blocks_ok st'.
Proof.
  intros Hst Hstep. destruct Hstep.
  - unfold s_initialize. destruct (REQUESTS st !! name) eqn:E; [exact Hst|].
    intros n r. cbn [snd REQUESTS]. rewrite lookup_insert.
    destruct (decide (name = n)); [intros [= <-]; reflexivity | apply Hst].
  - unfold s_switch. destruct (REQUESTS st !! name); exact Hst.
  - unfold s_block_start, bind.
    pose proof (current_push_ok
      (blocks_block name group encoder dep dep_value dep_values dep_compare)
      st Hst) as Hp.
    destruct (current_push _ st) as [[e|[]] st1]; exact Hp.
  - unfold s_block_end. run_get_current st; [|exact Hst].
    unfold bind, lift. destruct (request_pop r) as [e|r'] eqn:Hp; [exact Hst|].
    apply set_current_ok; [exact Hst|].
    eapply request_pop_open_known; [eapply current_ok; eassumption | exact Hp].
  - unfold s_checksum. run_get_current st; [|exact Hst].
    destruct (in_block_stack block_name r); [exact Hst|].
    unfold bind, lift. destruct (blocks_checksum _ _ _ _ _ _); [exact Hst|].
    apply current_push_ok, Hst.
  - unfold s_repeat. run_get_current st; [|exact Hst].
    unfold bind, lift. destruct (blocks_repeat _ _ _ _ _ _ _ _); [exact Hst|].
    apply current_push_ok, Hst.
  - unfold s_size. run_get_current st; [|exact Hst].
    destruct (in_block_stack block_name r); [exact Hst|].
    unfold bind, lift.
    destruct (blocks_size _ _ _ _ _ _ _ _ _ _ _); [exact Hst|].
    apply current_push_ok, Hst.
  - unfold s_update. run_get_current st; [|exact Hst].
    destruct (names r !! name) as [l|]; [|exact Hst].
    apply set_current_ok; [exact Hst|].
    pose proof (current_ok _ _ Hst Hc) as Hr. revert Hr.
    unfold open_known, open_names. cbn [objs block_stack names].
    rewrite set_value_open_names. auto.
  - apply current_push_ok, Hst.
  - unfold s_binary, bind, lift. destruct (s_binary_parse v); [exact Hst|].
    apply current_push_ok, Hst.
Qed.

(** In a state reached through the construction functions, a name that is
    not in the name table of the current Request is not an open block. *)
Lemma reachable_ok (st : blocks) : reachable st -> blocks_ok st.
Proof.
  induction 1 as [|st st' _ IH Hstep].
  - intros n r. unfold initial_state. cbn [REQUESTS].
    rewrite lookup_empty. discriminate.
  - exact (step_ok _ _ IH Hstep).
Qed.

(** ** C7 *)

Lemma check_target_open (block_name : string) (r : request) :
  in_block_stack block_name r = true ->
  check_target block_name r = raise (SullyRuntimeError DanglingReference).
Proof. unfold check_target. intros ->. reflexivity. Qed.

Lemma check_target_unknown (block_name : string) (r : request) :
  in_block_stack block_name r = false -> names r !! block_name = None ->
  check_target block_name r = raise (SullyRuntimeError NotFound).
Proof. unfold check_target. intros -> ->. reflexivity. Qed.

Section Modifiers.

Variables (block_name : string) (st : blocks) (r : request).
Hypothesis Hc : current st = Some r.

(** The three declarations on an open target. *)
Lemma modifiers_open :
  in_block_stack block_name r = true ->
  (forall algorithm length endian name,
     s_checksum block_name algorithm length endian name st
     = (raise (SullyRuntimeError DanglingReference), st))
  /\ (forall offset length endian format inclusive signed math fuzzable name,
        s_size block_name offset length endian format inclusive signed math
          fuzzable name st
        = (raise (SullyRuntimeError DanglingReference), st))
  /\ (forall min_reps max_reps stp variable fuzzable name,
        s_repeat block_name min_reps max_reps stp variable fuzzable name st
        = (raise (SullyRuntimeError DanglingReference), st)).
Proof.
  intros Hopen. split; [|split]; intros;
    unfold s_checksum, s_size, s_repeat, bind;
    rewrite (get_current_some _ _ Hc); unfold ok; cbn beta iota.
  - rewrite Hopen. reflexivity.
  - rewrite Hopen. reflexivity.
  - unfold blocks_repeat, lift. rewrite (check_target_open _ _ Hopen).
    reflexivity.
Qed.

(** The three declarations on a target that is neither open nor known. *)
Lemma modifiers_unknown :
  in_block_stack block_name r = false -> names r !! block_name = None ->
  (forall algorithm length endian name,
     s_checksum block_name algorithm length endian name st
     = (raise (SullyRuntimeError NotFound), st))
  /\ (forall offset length endian format inclusive signed math fuzzable name,
        s_size block_name offset length endian format inclusive signed math
          fuzzable name st
        = (raise (SullyRuntimeError NotFound), st))
  /\ (forall min_reps max_reps stp variable fuzzable name,
        s_repeat block_name min_reps max_reps stp variable fuzzable name st
        = (raise (SullyRuntimeError NotFound), st)).
Proof.
  intros Hclosed Hunknown. split; [|split]; intros;
    unfold s_checksum, s_size, s_repeat, bind;
    rewrite (get_current_some _ _ Hc); unfold ok; cbn beta iota;
    rewrite ?Hclosed;
    unfold blocks_checksum, blocks_size, blocks_repeat, lift;
    rewrite (check_target_unknown _ _ Hclosed Hunknown); reflexivity.
Qed.

(** C7: in the current Request, declaring a checksum, a sizer or a repeat
    whose target is an open block fails with DanglingReference, and, the
    open blocks being in the name table as they are in every request the
    construction functions build, declaring one whose target is not in
    the name table fails with NotFound; in both cases nothing is pushed:
    the globals are as before. *)
Theorem modifier_target_errors :
  (in_block_stack block_name r = true ->
   (forall algorithm length endian name,
      s_checksum block_name algorithm length endian name st
      = (raise (SullyRuntimeError DanglingReference), st))
   /\ (forall offset length endian format inclusive signed math fuzzable name,
         s_size block_name offset length endian format inclusive signed math
           fuzzable name st
         = (raise (SullyRuntimeError DanglingReference), st))
   /\ (forall min_reps max_reps stp variable fuzzable name,
         s_repeat block_name min_reps max_reps stp variable fuzzable name st
         = (raise (SullyRuntimeError DanglingReference), st)))
  /\ (open_known r = true -> names r !! block_name = None ->
      (forall algorithm length endian name,
         s_checksum block_name algorithm length endian name st
         = (raise (SullyRuntimeError NotFound), st))
      /\ (forall offset length endian format inclusive signed math fuzzable name,
            s_size block_name offset length endian format inclusive signed math
              fuzzable name st
            = (raise (SullyRuntimeError NotFound), st))
      /\ (forall min_reps max_reps stp variable fuzzable name,
            s_repeat block_name min_reps max_reps stp variable fuzzable name st
            = (raise (SullyRuntimeError NotFound), st))).
Proof.
  split; [exact modifiers_open|].
  intros Hk Hunknown. apply modifiers_unknown; [|exact Hunknown].
  apply open_known_closed; assumption.
Qed.

End Modifiers.

Lemma modifier_target_errors_witness :
  (s_checksum "body" "crc32" 0 "<" None example_state
   = (raise (SullyRuntimeError DanglingReference), example_state)
   /\ s_size "body" 0 4 "<" "binary" false false None false None example_state
      = (raise (SullyRuntimeError DanglingReference), example_state)
   /\ s_repeat "body" 0 (Some 3) 1 None true None example_state
      = (raise (SullyRuntimeError DanglingReference), example_state))
  /\ (s_checksum "nowhere" "crc32" 0 "<" None example_state
      = (raise (SullyRuntimeError NotFound), example_state)
      /\ s_size "nowhere" 0 4 "<" "binary" false false None false None example_state
         = (raise (SullyRuntimeError NotFound), example_state)
      /\ s_repeat "nowhere" 0 (Some 3) 1 None true None example_state
         = (raise (SullyRuntimeError NotFound), example_state)).
Proof.
  assert (Hc : current example_state = Some example_request) by reflexivity.
  assert (Ho : in_block_stack "body" example_request = true) by reflexivity.
  assert (Hk : open_known example_request = true) by reflexivity.
  assert (Hu : names example_request !! "nowhere"%string = None) by reflexivity.
  destruct (modifier_target_errors "body" _ _ Hc) as [Hopen _].
  destruct (modifier_target_errors "nowhere" _ _ Hc) as [_ Hunk].
  destruct (Hopen Ho) as (H1 & H2 & H3).
  destruct (Hunk Hk Hu) as (H4 & H5 & H6).
  split; (split; [|split]).
  - apply H1.
  - apply H2.
  - apply H3.
  - apply H4.
  - apply H5.
  - apply H6.
Defined.

(** The example state is one that the construction functions reach, and
    once the block is closed the checksum on it is accepted and pushed. *)
Lemma example_reachable : reachable example_state.
Proof.
  unfold example_state.
  repeat (eapply reachable_step; [|constructor]). apply reachable_initial.
Qed.

Lemma checksum_after_block_end :
  exists st', 
    s_checksum "body" "crc32" 0 "<" None (snd (s_block_end None example_state))
    = (ok tt, st')
    /\ (r ← current st'; Some (List.length (objs r))) = Some 3%nat.
Proof. eexists. split; reflexivity. Qed.

(** ** C9 *)

(** Whatever [argument] is, a stub built with a string for [msg] ends in
    the call of that string, which is a TypeError. *)
Lemma custom_raise_string (argument : pyval) (msg : string) (x : pyval) (st : blocks) :
  custom_raise argument (PyStr msg) x st = (raise TypeError, st).
Proof. unfold custom_raise, bind, lift. destruct argument; reflexivity. Qed.

(** C9: each of the stub aliases, on every argument and in every state,
    raises an exception (the TypeError of calling the message string) and
    leaves the globals, hence the current request, as they were. *)
Theorem legacy_stubs_raise :
  Forall (fun f : pyval -> M unit =>
            forall (x : pyval) (st : blocks), f x st = (raise TypeError, st))
         legacy_stubs.
Proof.
  unfold legacy_stubs. repeat constructor; intros x st; apply custom_raise_string.
Qed.



(** * Further properties of the code *)

(** ** reflect *)

Lemma testbit_add_bit (a m k : Z) (b : bool) :
  0 <= m -> 0 <= a < 2 ^ m -> 0 <= k ->
  Z.testbit (a + Z.b2z b * 2 ^ m) k = Z.testbit a k || ((k =? m) && b).
Proof.
  intros Hm Ha Hk.
  assert (Hl : Z.land a (Z.b2z b * 2 ^ m) = 0).
  { apply Z.bits_inj'. intros i Hi.
    rewrite Z.land_spec, Z.mul_pow2_bits, Z.bits_0 by lia.
    destruct (Z.ltb_spec i m).
    - rewrite (Z.testbit_neg_r _ (i - m)) by lia. apply andb_false_r.
    - replace (Z.testbit a i) with false; [reflexivity|]. symmetry.
      destruct (Z.eq_dec a 0) as [->|]; [apply Z.bits_0|].
      apply Z.bits_above_log2; [lia|].
      apply Z.lt_le_trans with m; [apply Z.log2_lt_pow2; lia | lia]. }
  rewrite (Z.add_nocarry_lxor _ _ Hl), (Z.lxor_lor _ _ Hl), Z.lor_spec.
  f_equal. rewrite Z.mul_pow2_bits by lia.
  destruct (Z.eqb_spec k m) as [->|Hne].
  - rewrite Z.sub_diag. apply Z.b2z_bit0.
  - destruct (Z.ltb_spec k m); [apply Z.testbit_neg_r; lia|].
    destruct b; [apply (Z.pow2_bits_false 0); lia | apply Z.bits_0].
Qed.

Lemma reflect_bits_upto_testbit (w x : Z) (m : nat) (k : Z) :
  0 <= k ->
  Z.testbit (reflect_bits_upto w x m) k
  = (k <? Z.of_nat m) && Z.testbit x (w - 1 - k).
Proof.
  intros Hk. induction m as [|m IH].
  - cbn [reflect_bits_upto]. rewrite Z.bits_0.
    destruct (Z.ltb_spec k (Z.of_nat 0)); [lia | reflexivity].
  - cbn [reflect_bits_upto].
    rewrite testbit_add_bit by (try apply reflect_bits_upto_range; lia).
    rewrite IH, Nat2Z.inj_succ.
    destruct (Z.eqb_spec k (Z.of_nat m)) as [->|Hne].
    + destruct (Z.ltb_spec (Z.of_nat m) (Z.of_nat m)); [lia|].
      destruct (Z.ltb_spec (Z.of_nat m) (Z.succ (Z.of_nat m))); [|lia].
      reflexivity.
    + rewrite orb_false_r.
      destruct (Z.ltb_spec k (Z.of_nat m));
        destruct (Z.ltb_spec k (Z.succ (Z.of_nat m))); try lia; reflexivity.
Qed.

Lemma reflect_bits_upto_testbit_w (w : nat) (x k : Z) :
  0 <= k ->
  Z.testbit (reflect_bits w x) k
  = (k <? Z.of_nat w) && Z.testbit x (Z.of_nat w - 1 - k).
Proof. intros Hk. unfold reflect_bits. apply reflect_bits_upto_testbit, Hk. Qed.

(** X1: bit [k] of [reflect(x, n)] is bit [n - 1 - k] of [x] for [k < n],
    and the bits from [n] on are clear, whatever the integer [x] is. *)
Theorem reflect_testbit (x n k : Z) :
  0 <= k ->
  Z.testbit (reflect x n) k = (k <? n) && Z.testbit x (n - 1 - k).
Proof.
  intros Hk. destruct (Z.le_gt_cases 0 n) as [Hn|Hn].
  - rewrite reflect_eq by assumption. unfold reflect_bits.
    rewrite reflect_bits_upto_testbit, !Z2Nat.id by assumption. reflexivity.
  - unfold reflect. replace (Z.to_nat n) with 0%nat by lia.
    cbn [seq fold_left snd]. rewrite Z.bits_0.
    destruct (Z.ltb_spec k n); [lia | reflexivity].
Qed.

Lemma reflect_testbit_witness :
  Z.testbit (reflect 0x8005 16) 0 = (0 <? 16) && Z.testbit 0x8005 (16 - 1 - 0).
Proof. apply (reflect_testbit 0x8005 16 0). lia. Defined.

Lemma reflect_bits_involutive (w : nat) (x : Z) :
  reflect_bits w (reflect_bits w x) = x mod 2 ^ Z.of_nat w.
Proof.
  apply Z.bits_inj'. intros k Hk.
  rewrite reflect_bits_upto_testbit_w, Z.testbit_mod_pow2 by lia.
  destruct (Z.ltb_spec k (Z.of_nat w)) as [Hlt|Hge]; [|reflexivity].
  rewrite reflect_bits_upto_testbit_w by lia.
  destruct (Z.ltb_spec (Z.of_nat w - 1 - k) (Z.of_nat w)); [|lia].
  cbn [andb]. f_equal. lia.
Qed.

(** X2: reflecting twice gives back the lower [n] bits: [reflect] is an
    involution on the integers below [2 ^ n]. *)
Theorem reflect_involutive (x n : Z) :
  0 <= n -> reflect (reflect x n) n = x mod 2 ^ n.
Proof.
  intros Hn. rewrite !reflect_eq by assumption.
  rewrite reflect_bits_involutive, Z2Nat.id by assumption. reflexivity.
Qed.

Lemma reflect_involutive_witness :
  reflect (reflect 0x1D0F 16) 16 = 0x1D0F mod 2 ^ 16.
Proof. apply (reflect_involutive 0x1D0F 16). lia. Defined.

(** ** The CRC register is linear *)

Lemma crcbitbybit_register (p : string) :
  crcbitbybit p
  = reflect_bits 16
      (Nat.iter 16 (reg_shift false) (fold_left (reference_byte 7 8) (chars p) 0)).
Proof.
  unfold crcbitbybit.
  rewrite reflect_eq by lia. change (Z.to_nat 16) with 16%nat.
  rewrite crc_fold_eq.
  pose proof (reference_fold_range 7 8 (chars p) 0 ltac:(lia)) as Hr.
  set (r := fold_left (reference_byte 7 8) (chars p) 0) in *.
  unfold reflect_bits.
  rewrite <- (reflect_bits_upto_low _ (Nat.iter 16 augment_body r)).
  change (Z.of_nat 16) with 16.
  rewrite augment_iter_mod, (Z.mod_small r) by exact Hr. reflexivity.
Qed.

Lemma reflect_bits_testbit (w : nat) (x k : Z) :
  0 <= k ->
  Z.testbit (reflect_bits w x) k
  = (k <? Z.of_nat w) && Z.testbit x (Z.of_nat w - 1 - k).
Proof. intros Hk. unfold reflect_bits. apply reflect_bits_upto_testbit, Hk. Qed.

Ltac bitwise :=
  apply Z.bits_inj'; intros ? ?;
  repeat rewrite ?Z.lxor_spec, ?Z.land_spec, ?Z.lor_spec;
  repeat match goal with
         | |- context [Z.testbit ?a ?n] =>
             is_var a; destruct (Z.testbit a n)
         end; reflexivity.

Lemma lxor_if_poly (t1 t2 : bool) (a b P : Z) :
  (if xorb t1 t2 then Z.lxor (Z.lxor a b) P else Z.lxor a b)
  = Z.lxor (if t1 then Z.lxor a P else a) (if t2 then Z.lxor b P else b).
Proof. destruct t1, t2; cbn [xorb]; bitwise. Qed.

Lemma testbit_shifted_in (x : Z) (c : bool) (k : Z) :
  0 <= k ->
  Z.testbit (2 * x + Z.b2z c) k = if k =? 0 then c else Z.testbit x (k - 1).
Proof.
  intros Hk. destruct (Z.eqb_spec k 0) as [->|Hne].
  - apply Z.testbit_0_r.
  - replace k with (Z.succ (k - 1)) at 1 by lia.
    apply Z.testbit_succ_r. lia.
Qed.

Lemma shift_mod_lxor (r s : Z) (a b : bool) :
  (2 * Z.lxor r s + Z.b2z (xorb a b)) mod 2 ^ 16
  = Z.lxor ((2 * r + Z.b2z a) mod 2 ^ 16) ((2 * s + Z.b2z b) mod 2 ^ 16).
Proof.
  apply Z.bits_inj'. intros k Hk.
  rewrite Z.lxor_spec, !Z.testbit_mod_pow2, !testbit_shifted_in by lia.
  rewrite Z.lxor_spec.
  destruct (k <? 16); [|reflexivity]. destruct (k =? 0); reflexivity.
Qed.

Lemma reg_shift_lxor (a b : bool) (r s : Z) :
  reg_shift (xorb a b) (Z.lxor r s) = Z.lxor (reg_shift a r) (reg_shift b s).
Proof.
  unfold reg_shift. rewrite Z.lxor_spec, shift_mod_lxor. apply lxor_if_poly.
Qed.

Lemma shift_fold_lxor (f g : nat -> bool) (l : list nat) (r s : Z) :
  fold_left (fun r k => reg_shift (xorb (f k) (g k)) r) l (Z.lxor r s)
  = Z.lxor (fold_left (fun r k => reg_shift (f k) r) l r)
           (fold_left (fun r k => reg_shift (g k) r) l s).
Proof.
  revert r s. induction l as [|k l IH]; intros r s; [reflexivity|].
  cbn [fold_left]. rewrite reg_shift_lxor. apply IH.
Qed.

Lemma shift_fold_ext (f g : nat -> bool) (l : list nat) (r : Z) :
  (forall k, In k l -> f k = g k) ->
  fold_left (fun r k => reg_shift (f k) r) l r
  = fold_left (fun r k => reg_shift (g k) r) l r.
Proof.
  revert r. induction l as [|k l IH]; intros r H; [reflexivity|].
  cbn [fold_left]. rewrite (H k) by (left; reflexivity).
  apply IH. intros k' Hk'. apply H. right. exact Hk'.
Qed.

Lemma shift_fold_seq (f : nat -> bool) (start n : nat) (r : Z) :
  fold_left (fun r k => reg_shift (f k) r) (seq start n) r
  = fold_left (fun r k => reg_shift (f (start + k)%nat) r) (seq 0 n) r.
Proof.
  revert f start r. induction n as [|n IH]; intros f start r; [reflexivity|].
  cbn [seq fold_left]. rewrite Nat.add_0_r.
  rewrite (IH f (S start)), (IH (fun k => f (start + k)%nat) 1%nat).
  apply shift_fold_ext. intros k _. f_equal. lia.
Qed.

Lemma shift_fold_zero (l : list nat) (r : Z) :
  fold_left (fun r k => reg_shift false r) l r
  = Nat.iter (List.length l) (reg_shift false) r.
Proof.
  revert r. induction l as [|k l IH]; intros r; [reflexivity|].
  cbn [fold_left List.length]. rewrite IH. symmetry. apply Nat.iter_succ_r.
Qed.

(** Shifting the 16 bits of [w] into an empty register loads [w]. *)
Lemma shift_load (w : Z) (m : nat) :
  0 <= w < 2 ^ 16 -> (m <= 16)%nat ->
  fold_left (fun r k => reg_shift (Z.testbit w (15 - Z.of_nat k)) r) (seq 0 m) 0
  = w / 2 ^ (16 - Z.of_nat m).
Proof.
  intros Hw. induction m as [|m IH]; intros Hm.
  - cbn [seq fold_left]. symmetry. apply Z.div_small. exact Hw.
  - rewrite seq_S, fold_left_app, IH by lia. cbn [fold_left Nat.add].
    set (q := w / 2 ^ (16 - Z.of_nat m)).
    assert (Hq : 0 <= q < 2 ^ 15).
    { unfold q. split; [apply Z.div_pos; [lia | apply Z.pow_pos_nonneg; lia]|].
      apply Z.div_lt_upper_bound; [apply Z.pow_pos_nonneg; lia|].
      apply Z.lt_le_trans with (2 ^ 16); [lia|].
      rewrite <- Z.pow_add_r by lia. apply Z.pow_le_mono_r; lia. }
    unfold reg_shift.
    replace (Z.testbit q 15) with false.
    2:{ symmetry. destruct (Z.eq_dec q 0) as [->|]; [apply Z.bits_0|].
        apply Z.bits_above_log2; [lia|]. apply Z.log2_lt_pow2; lia. }
    assert (Hd : w / 2 ^ (16 - Z.of_nat (S m))
                 = 2 * q + Z.b2z (Z.testbit w (15 - Z.of_nat m))).
    { rewrite Z.testbit_spec' by lia.
      replace (16 - Z.of_nat (S m)) with (15 - Z.of_nat m) by lia.
      unfold q. replace (16 - Z.of_nat m) with (15 - Z.of_nat m + 1) by lia.
      rewrite Z.pow_add_r, <- Z.div_div by (try apply Z.pow_pos_nonneg; lia).
      change (2 ^ 1) with 2. apply Z.div_mod. lia. }
    rewrite Hd. apply Z.mod_small.
    destruct (Z.testbit w (15 - Z.of_nat m)); simpl Z.b2z; lia.
Qed.

Lemma chars_app (s t : string) : chars (s ++ t) = (chars s ++ chars t)%list.
Proof.
  unfold chars. induction s as [|c s IH]; [reflexivity|].
  cbn [append list_ascii_of_string]. rewrite IH. reflexivity.
Qed.

Lemma iter_shift_range (n : nat) (r : Z) :
  0 <= r < 2 ^ 16 -> 0 <= Nat.iter n (reg_shift false) r < 2 ^ 16.
Proof.
  intros Hr. destruct n as [|n]; [exact Hr|].
  cbn [Nat.iter nat_rect]. apply reg_shift_range.
Qed.

(** Two input bytes whose reflections are the high and the low byte of [w]
    shift the 16 bits of [w] into the register. *)
Lemma reference_two_bytes (r w : Z) (c1 c2 : ascii) :
  reflect_bits 8 (ord c1) = w / 2 ^ 8 ->
  reflect_bits 8 (ord c2) = w mod 2 ^ 8 ->
  reference_byte 7 8 (reference_byte 7 8 r c1) c2
  = fold_left (fun r k => reg_shift (Z.testbit w (15 - Z.of_nat k)) r) (seq 0 16) r.
Proof.
  intros H1 H2. unfold reference_byte. rewrite H1, H2.
  change (seq 0 16) with (seq 0 8 ++ seq 8 8)%list.
  rewrite fold_left_app.
  rewrite (shift_fold_seq (fun k => Z.testbit w (15 - Z.of_nat k)) 8 8).
  rewrite (shift_fold_ext (fun k => Z.testbit (w / 2 ^ 8) (7 - Z.of_nat k))
             (fun k => Z.testbit w (15 - Z.of_nat k))).
  - apply shift_fold_ext. intros k Hk. apply in_seq in Hk.
    rewrite Z.mod_pow2_bits_low by lia. f_equal. lia.
  - intros k Hk. apply in_seq in Hk.
    rewrite Z.div_pow2_bits by lia. f_equal. lia.
Qed.

Lemma reflect_low_byte (w : Z) :
  0 <= w < 2 ^ 16 ->
  reflect_bits 8 (reflect_bits 16 w mod 2 ^ 8) = w / 2 ^ 8.
Proof.
  intros Hw. apply Z.bits_inj'. intros k Hk.
  rewrite reflect_bits_testbit, Z.div_pow2_bits by lia.
  change (Z.of_nat 8) with 8.
  destruct (Z.ltb_spec k 8) as [Hlt|Hge]; cbn [andb].
  - rewrite Z.mod_pow2_bits_low, reflect_bits_testbit by lia.
    change (Z.of_nat 16) with 16.
    destruct (Z.ltb_spec (8 - 1 - k) 16); [|lia]. cbn [andb]. f_equal. lia.
  - symmetry. destruct (Z.eq_dec w 0) as [->|]; [apply Z.bits_0|].
    apply Z.bits_above_log2; [lia|].
    apply Z.lt_le_trans with 16; [apply Z.log2_lt_pow2; lia | lia].
Qed.

Lemma reflect_high_byte (w : Z) :
  reflect_bits 8 (reflect_bits 16 w / 2 ^ 8) = w mod 2 ^ 8.
Proof.
  apply Z.bits_inj'. intros k Hk.
  rewrite reflect_bits_testbit, Z.testbit_mod_pow2 by lia.
  change (Z.of_nat 8) with 8.
  destruct (Z.ltb_spec k 8) as [Hlt|Hge]; cbn [andb]; [|reflexivity].
  rewrite Z.div_pow2_bits, reflect_bits_testbit by lia.
  change (Z.of_nat 16) with 16.
  destruct (Z.ltb_spec (8 - 1 - k + 8) 16); [|lia]. cbn [andb]. f_equal. lia.
Qed.

(** The register is empty again once the 16 bits it would leave after the
    trailing rounds have been shifted in. *)
Lemma shift_own_remainder (r : Z) :
  0 <= r < 2 ^ 16 ->
  fold_left
    (fun r' k =>
       reg_shift (Z.testbit (Nat.iter 16 (reg_shift false) r) (15 - Z.of_nat k)) r')
    (seq 0 16) r
  = 0.
Proof.
  intros Hr. set (w := Nat.iter 16 (reg_shift false) r).
  assert (Hw : 0 <= w < 2 ^ 16) by (apply iter_shift_range, Hr).
  rewrite <- (Z.lxor_0_r r) at 1.
  rewrite (shift_fold_ext _
             (fun k => xorb false (Z.testbit w (15 - Z.of_nat k))))
    by (intros; reflexivity).
  rewrite (shift_fold_lxor (fun _ => false)).
  rewrite shift_fold_zero, (shift_load w 16 Hw) by lia.
  change (List.length (seq 0 16)) with 16%nat. fold w.
  change (2 ^ (16 - Z.of_nat 16)) with 1. rewrite Z.div_1_r.
  apply Z.lxor_nilpotent.
Qed.

(** ** crcbitbybit *)

(** X3: a message followed by its own checksum, low byte first as
    [struct.pack("<H", ...)] lays it out, has checksum 0. *)
Theorem crcbitbybit_residue (p : string) :
  exists s : string,
    struct_pack_H (PyInt (crcbitbybit p)) = ok s
    /\ String.length s = 2%nat
    /\ crcbitbybit (p ++ s) = 0.
Proof.
  pose proof (crcbitbybit_range p) as Hv.
  unfold struct_pack_H.
  destruct (Z.leb_spec 0 (crcbitbybit p)); [|lia].
  destruct (Z.leb_spec (crcbitbybit p) 0xFFFF); [|lia]. cbn [andb].
  eexists. split; [reflexivity|]. split; [reflexivity|].
  rewrite (crcbitbybit_register (p ++ _)), chars_app, fold_left_app.
  rewrite crcbitbybit_register in *.
  pose proof (reference_fold_range 7 8 (chars p) 0 ltac:(lia)) as Hr.
  set (r := fold_left (reference_byte 7 8) (chars p) 0) in *.
  set (w := Nat.iter 16 (reg_shift false) r) in *.
  assert (Hw : 0 <= w < 2 ^ 16) by (apply iter_shift_range, Hr).
  cbn [chars list_ascii_of_string fold_left].
  rewrite (reference_two_bytes r w).
  - unfold w. rewrite (shift_own_remainder r Hr). reflexivity.
  - rewrite ord_ascii_of_N by (apply Z.mod_pos_bound; lia).
    apply reflect_low_byte, Hw.
  - rewrite ord_ascii_of_N
      by (split; [apply Z.div_pos; lia | apply Z.div_lt_upper_bound; lia]).
    apply reflect_high_byte.
Qed.

(** X4: leading NUL bytes do not change the checksum: the register starts
    empty and a zero byte leaves an empty register empty. *)
Theorem crcbitbybit_leading_zeros (n : nat) (p : string) :
  crcbitbybit (payload n zero ++ p) = crcbitbybit p.
Proof.
  rewrite !crcbitbybit_register. do 2 f_equal.
  induction n as [|n IH]; [reflexivity|].
  cbn [payload append chars list_ascii_of_string fold_left].
  change (reference_byte 7 8 0 zero) with 0. exact IH.
Qed.

Lemma ord_range (c : ascii) : 0 <= ord c < 256.
Proof.
  unfold ord. pose proof (N_ascii_bounded c). lia.
Qed.

Lemma ord_xor_char (x y : ascii) : ord (xor_char x y) = Z.lxor (ord x) (ord y).
Proof.
  unfold xor_char. apply ord_ascii_of_N.
  pose proof (ord_range x) as Hx. pose proof (ord_range y) as Hy.
  rewrite <- (Z.mod_small (ord x) (2 ^ 8)), <- (Z.mod_small (ord y) (2 ^ 8)) by lia.
  rewrite <- lxor_mod_pow2 by lia. apply Z.mod_pos_bound. lia.
Qed.

Lemma reflect_bits_lxor (w : nat) (x y : Z) :
  reflect_bits w (Z.lxor x y) = Z.lxor (reflect_bits w x) (reflect_bits w y).
Proof.
  apply Z.bits_inj'. intros k Hk.
  rewrite Z.lxor_spec, !reflect_bits_testbit, Z.lxor_spec by assumption.
  destruct (k <? Z.of_nat w); [reflexivity|]. reflexivity.
Qed.

Lemma reference_byte_lxor (r s : Z) (x y : ascii) :
  reference_byte 7 8 (Z.lxor r s) (xor_char x y)
  = Z.lxor (reference_byte 7 8 r x) (reference_byte 7 8 s y).
Proof.
  unfold reference_byte. rewrite ord_xor_char, reflect_bits_lxor.
  rewrite <- shift_fold_lxor. apply shift_fold_ext.
  intros k _. apply Z.lxor_spec.
Qed.

Lemma reference_fold_lxor (a b : string) (r s : Z) :
  String.length a = String.length b ->
  fold_left (reference_byte 7 8) (chars (xor_strings a b)) (Z.lxor r s)
  = Z.lxor (fold_left (reference_byte 7 8) (chars a) r)
           (fold_left (reference_byte 7 8) (chars b) s).
Proof.
  revert b r s. induction a as [|x a IH]; intros [|y b] r s Hlen;
    try discriminate Hlen; [reflexivity|].
  cbn [xor_strings chars list_ascii_of_string fold_left].
  rewrite reference_byte_lxor. apply IH. injection Hlen as Hlen. exact Hlen.
Qed.

(** X5: the checksum is linear: on two strings of the same length, the
    checksum of their bytewise exclusive or is the exclusive or of their
    checksums. *)
Theorem crcbitbybit_linear (a b : string) :
  String.length a = String.length b ->
  crcbitbybit (xor_strings a b) = Z.lxor (crcbitbybit a) (crcbitbybit b).
Proof.
  intros Hlen. rewrite !crcbitbybit_register.
  rewrite <- reflect_bits_lxor. f_equal.
  rewrite <- (Z.lxor_0_r 0) at 1. rewrite (reference_fold_lxor a b 0 0 Hlen).
  rewrite <- !(shift_fold_zero (seq 0 16)).
  rewrite <- shift_fold_lxor. reflexivity.
Qed.

Lemma crcbitbybit_linear_witness :
  crcbitbybit (xor_strings "123456789" "ABCDEFGHI")
  = Z.lxor (crcbitbybit "123456789") (crcbitbybit "ABCDEFGHI").
Proof. apply (crcbitbybit_linear "123456789" "ABCDEFGHI"). reflexivity. Defined.

(** ** CRC16.hexchecksum *)

Lemma hex_char_digit (d : Z) : 0 <= d < 16 -> hex_digit (hex_char d) = Some d.
Proof.
  intros Hd. unfold hex_char, hex_digit.
  destruct (Z.ltb_spec d 10).
  - rewrite ord_ascii_of_N by lia.
    destruct (Z.leb_spec 48 (48 + d)); [|lia].
    destruct (Z.leb_spec (48 + d) 57); [|lia]. cbn [andb]. f_equal. lia.
  - rewrite ord_ascii_of_N by lia.
    destruct (Z.leb_spec 48 (87 + d)); [|lia].
    destruct (Z.leb_spec (87 + d) 57); [lia|]. cbn [andb].
    destruct (Z.leb_spec 97 (87 + d)); [|lia].
    destruct (Z.leb_spec (87 + d) 102); [|lia]. cbn [andb]. f_equal. lia.
Qed.

Lemma hex_value_app (acc : Z) (s t : string) :
  hex_value acc (s ++ t) = hex_value acc s ≫= fun a => hex_value a t.
Proof.
  revert acc. induction s as [|c s IH]; intros acc; [reflexivity|].
  cbn [append hex_value]. destruct (hex_digit c) as [d|]; [|reflexivity].
  cbn [mbind option_bind]. apply IH.
Qed.

Lemma hex_value_digits (k : nat) (n acc : Z) :
  hex_value acc (hex_digits k n)
  = Some (acc * 16 ^ Z.of_nat k + n mod 16 ^ Z.of_nat k).
Proof.
  revert n acc. induction k as [|k IH]; intros n acc.
  - cbn [hex_digits hex_value]. change (16 ^ Z.of_nat 0) with 1.
    rewrite Z.mod_1_r. f_equal. lia.
  - cbn [hex_digits]. rewrite hex_value_app, IH. cbn [mbind option_bind hex_value].
    rewrite hex_char_digit by (apply Z.mod_pos_bound; lia).
    cbn [mbind option_bind]. f_equal.
    rewrite Nat2Z.inj_succ, Z.pow_succ_r by lia.
    assert (0 < 16 ^ Z.of_nat k) by (apply Z.pow_pos_nonneg; lia).
    rewrite (Z.rem_mul_r n 16 (16 ^ Z.of_nat k)) by lia. lia.
Qed.

Lemma hex_digits_length (k : nat) (n : Z) : String.length (hex_digits k n) = k.
Proof.
  revert n. induction k as [|k IH]; intros n; [reflexivity|].
  cbn [hex_digits].
  assert (Hl : forall s t, String.length (s ++ t) = (String.length s + String.length t)%nat).
  { induction s as [|c s IHs]; intros t; cbn; [reflexivity | rewrite IHs; reflexivity]. }
  rewrite Hl, IH. cbn. lia.
Qed.

Lemma hex_len_16_bits (n : Z) : 0 <= n < 65536 -> (hex_len n <= 4)%nat.
Proof.
  intros Hn. unfold hex_len. destruct (Z.eqb_spec n 0); [lia|].
  assert (Z.log2 n < 16) by (apply Z.log2_lt_pow2; lia).
  assert (0 <= Z.log2 n) by apply Z.log2_nonneg.
  assert (Z.log2 n / 4 < 4) by (apply Z.div_lt_upper_bound; lia).
  assert (0 <= Z.log2 n / 4) by (apply Z.div_pos; lia). lia.
Qed.

(** X6: on a [val] in the 16-bit range, [hexchecksum()] is four
    hexadecimal digits that [int(..., 16)] reads back as [val]. *)
Theorem CRC16_hexchecksum_round_trip (o : CRC16) :
  val_in_range o ->
  String.length (CRC16_hexchecksum o) = 4%nat
  /\ int16 (CRC16_hexchecksum o) = ok (val o).
Proof.
  unfold val_in_range. intros Hv. unfold CRC16_hexchecksum, format_0x.
  destruct (Z.ltb_spec (val o) 0); [lia|].
  pose proof (hex_len_16_bits (val o) Hv) as Hl.
  replace (Nat.max 4 (hex_len (val o))) with 4%nat by lia.
  split; [apply hex_digits_length|].
  unfold int16. destruct (hex_digits 4 (val o)) as [|c t] eqn:E.
  - apply (f_equal String.length) in E. rewrite hex_digits_length in E.
    discriminate E.
  - rewrite <- E, hex_value_digits.
    change (16 ^ Z.of_nat 4) with 65536. rewrite Z.mod_small by lia.
    reflexivity.
Qed.

Lemma CRC16_hexchecksum_round_trip_witness :
  String.length (CRC16_hexchecksum {| val := 0x2189 |}) = 4%nat
  /\ int16 (CRC16_hexchecksum {| val := 0x2189 |}) = ok 0x2189.
Proof.
  apply (CRC16_hexchecksum_round_trip {| val := 0x2189 |}).
  unfold val_in_range. simpl. lia.
Defined.

(** ** s_hex_dump *)

Lemma shown_app (s t : string) :
  forallb shown (chars (s ++ t))
  = forallb shown (chars s) && forallb shown (chars t).
Proof. rewrite chars_app. apply forallb_app. Qed.

Lemma dump_char_shown (c : ascii) : shown (dump_char c) = true.
Proof.
  unfold dump_char, shown.
  destruct ((32 <=? ord c) && (ord c <=? 126)) eqn:E.
  - rewrite E. apply orb_true_r.
  - reflexivity.
Qed.

Lemma dump_slice_shown (dump slice : string) :
  forallb shown (chars dump) = true ->
  forallb shown (chars (dump_slice dump slice)) = true.
Proof.
  revert dump. induction slice as [|c t IH]; intros dump H; [exact H|].
  cbn [dump_slice]. apply IH. rewrite shown_app, H.
  cbn [chars list_ascii_of_string forallb]. rewrite dump_char_shown. reflexivity.
Qed.

Lemma hex_char_ord (d : Z) :
  0 <= d < 16 -> 48 <= ord (hex_char d) <= 102.
Proof.
  intros Hd. unfold hex_char.
  destruct (Z.ltb_spec d 10); rewrite ord_ascii_of_N by lia; lia.
Qed.

Lemma shown_range (c : ascii) : 32 <= ord c <= 126 -> shown c = true.
Proof.
  intros [H1 H2]. unfold shown.
  destruct (Z.leb_spec 32 (ord c)); [|lia].
  destruct (Z.leb_spec (ord c) 126); [|lia]. apply orb_true_r.
Qed.

Lemma hex_digits_shown (k : nat) (n : Z) :
  forallb shown (chars (hex_digits k n)) = true.
Proof.
  revert n. induction k as [|k IH]; intros n; [reflexivity|].
  cbn [hex_digits]. rewrite shown_app, IH.
  cbn [chars list_ascii_of_string forallb andb]. rewrite shown_range; [reflexivity|].
  pose proof (hex_char_ord (n mod 16) ltac:(apply Z.mod_pos_bound; lia)). lia.
Qed.

Lemma format_0x_shown (w : nat) (n : Z) :
  forallb shown (chars (format_0x w n)) = true.
Proof.
  unfold format_0x. destruct (n <? 0).
  - cbn [chars list_ascii_of_string forallb].
    fold (chars (hex_digits (Nat.max (w - 1) (hex_len (- n))) (- n))).
    rewrite hex_digits_shown. reflexivity.
  - apply hex_digits_shown.
Qed.

Lemma repeat_string_shown (s : string) (n : Z) :
  forallb shown (chars s) = true ->
  forallb shown (chars (repeat_string s n)) = true.
Proof.
  intros H. unfold repeat_string.
  induction (Z.to_nat n) as [|k IH]; [reflexivity|].
  cbn [Nat.iter nat_rect]. rewrite shown_app, H. exact IH.
Qed.

Lemma hex_dump_body_shown (dump slice : string) (addr : Z) (byte : ascii) :
  forallb shown (chars dump) = true ->
  forallb shown (chars (fst (fst (hex_dump_body (dump, slice, addr) byte)))) = true.
Proof.
  intros H. unfold hex_dump_body.
  destruct (addr mod 16 =? 0); cbn [fst].
  - rewrite !shown_app.
    rewrite dump_slice_shown by (rewrite shown_app, H; reflexivity).
    cbn [chars list_ascii_of_string forallb].
    fold (chars (format_0x 4 addr ++ ": ")). rewrite !shown_app.
    rewrite !format_0x_shown. reflexivity.
  - rewrite !shown_app, H, format_0x_shown. reflexivity.
Qed.

Lemma hex_dump_fold_shown (l : list ascii) (dump slice : string) (addr : Z) :
  forallb shown (chars dump) = true ->
  forallb shown (chars (fst (fst (fold_left hex_dump_body l (dump, slice, addr)))))
  = true.
Proof.
  revert dump slice addr. induction l as [|b l IH]; intros dump slice addr H;
    [exact H|].
  cbn [fold_left].
  pose proof (hex_dump_body_shown dump slice addr b H) as Hb.
  destruct (hex_dump_body (dump, slice, addr) b) as [[d s'] a]. apply IH, Hb.
Qed.

(** X7: whatever the bytes of [data] are, the dump consists of printable
    ASCII characters and line feeds only. *)
Theorem s_hex_dump_shown (data : string) (addr : Z) :
  forallb shown (chars (s_hex_dump data addr)) = true.
Proof.
  unfold s_hex_dump.
  pose proof (hex_dump_fold_shown (chars data) EmptyString EmptyString addr
                eq_refl) as H.
  destruct (fold_left hex_dump_body (chars data) _) as [[dump slice] a].
  cbn [fst] in H. unfold hex_dump_finish. rewrite shown_app.
  rewrite dump_slice_shown; [reflexivity|].
  destruct (negb (a mod 16 =? 0)); [|exact H].
  rewrite !shown_app, H, repeat_string_shown by reflexivity. reflexivity.
Qed.

Lemma count_char_app (c : ascii) (s t : string) :
  count_char c (s ++ t) = (count_char c s + count_char c t)%nat.
Proof.
  induction s as [|d s IH]; [reflexivity|].
  cbn [append count_char]. rewrite IH. lia.
Qed.

Lemma dump_char_not_lf (c : ascii) : Ascii.eqb lf (dump_char c) = false.
Proof.
  unfold dump_char. destruct ((32 <=? ord c) && (ord c <=? 126)) eqn:E;
    [|reflexivity].
  apply andb_true_iff in E as [H1%Z.leb_le H2].
  apply Ascii.eqb_neq. intros <-. vm_compute in H1. apply H1. reflexivity.
Qed.

Lemma dump_slice_lines (dump slice : string) :
  count_char lf (dump_slice dump slice) = count_char lf dump.
Proof.
  revert dump. induction slice as [|c t IH]; intros dump; [reflexivity|].
  cbn [dump_slice]. rewrite IH, count_char_app. cbn [count_char].
  rewrite dump_char_not_lf. lia.
Qed.

Lemma hex_digits_lines (k : nat) (n : Z) : count_char lf (hex_digits k n) = 0%nat.
Proof.
  revert n. induction k as [|k IH]; intros n; [reflexivity|].
  cbn [hex_digits]. rewrite count_char_app, IH. cbn [count_char].
  replace (Ascii.eqb lf (hex_char (n mod 16))) with false; [reflexivity|].
  symmetry. apply Ascii.eqb_neq. intros E.
  pose proof (hex_char_ord (n mod 16) ltac:(apply Z.mod_pos_bound; lia)) as H.
  rewrite <- E in H. vm_compute in H. destruct H as [H _]. apply H. reflexivity.
Qed.

Lemma format_0x_lines (w : nat) (n : Z) : count_char lf (format_0x w n) = 0%nat.
Proof.
  unfold format_0x. destruct (n <? 0); [|apply hex_digits_lines].
  cbn [count_char]. rewrite hex_digits_lines. reflexivity.
Qed.

Lemma repeat_string_lines (s : string) (n : Z) :
  count_char lf s = 0%nat -> count_char lf (repeat_string s n) = 0%nat.
Proof.
  intros H. unfold repeat_string.
  induction (Z.to_nat n) as [|k IH]; [reflexivity|].
  cbn [Nat.iter nat_rect]. rewrite count_char_app, H. exact IH.
Qed.

(** Decides the comparisons of the line feed with the literal characters
    that [count_char] leaves in the goal. *)
Ltac decide_lf :=
  repeat match goal with
         | |- context [Ascii.eqb lf ?c] =>
             let b := eval vm_compute in (Ascii.eqb lf c) in
             match b with
             | true => change (Ascii.eqb lf c) with true
             | false => change (Ascii.eqb lf c) with false
             end
         end;
  cbv iota.

Lemma hex_dump_lines (l : list ascii) (dump slice : string) (addr : Z) :
  count_char lf (hex_dump_finish (fold_left hex_dump_body l (dump, slice, addr)))
  = (count_char lf dump + aligned_addresses addr (List.length l) + 1)%nat.
Proof.
  revert dump slice addr. induction l as [|b l IH]; intros dump slice addr.
  - cbn [fold_left hex_dump_finish List.length aligned_addresses].
    rewrite count_char_app, dump_slice_lines. cbn [count_char]. decide_lf.
    destruct (negb (addr mod 16 =? 0)); [|lia].
    rewrite !count_char_app, repeat_string_lines by reflexivity.
    cbn [count_char]. decide_lf. lia.
  - cbn [fold_left List.length aligned_addresses]. unfold hex_dump_body at 2.
    destruct (addr mod 16 =? 0); rewrite IH.
    + rewrite !count_char_app, dump_slice_lines, !count_char_app.
      cbn [count_char]. rewrite !count_char_app, !format_0x_lines.
      cbn [count_char]. decide_lf. lia.
    + rewrite !count_char_app, format_0x_lines. cbn [count_char]. decide_lf. lia.
Qed.

(** The multiples of 16 among [addr], ..., [addr + n - 1], in closed form. *)
Lemma aligned_addresses_closed (addr : Z) (n : nat) :
  Z.of_nat (aligned_addresses addr n)
  = (addr + Z.of_nat n - 1) / 16 - (addr - 1) / 16.
Proof.
  revert addr. induction n as [|n IH]; intros addr.
  - cbn [aligned_addresses]. replace (addr + Z.of_nat 0 - 1) with (addr - 1) by lia.
    lia.
  - cbn [aligned_addresses]. rewrite Nat2Z.inj_add, IH.
    replace (addr + 1 + Z.of_nat n - 1) with (addr + Z.of_nat (S n) - 1) by lia.
    replace (addr + 1 - 1) with addr by lia.
    assert (Hstep : Z.of_nat (if addr mod 16 =? 0 then 1%nat else 0%nat)
                    = addr / 16 - (addr - 1) / 16).
    { pose proof (Z.div_mod addr 16 ltac:(lia)) as Hd.
      pose proof (Z.mod_pos_bound addr 16 ltac:(lia)) as Hm.
      destruct (Z.eqb_spec (addr mod 16) 0) as [E|E].
      - rewrite <- (Z.div_unique (addr - 1) 16 (addr / 16 - 1) 15) by lia. lia.
      - rewrite <- (Z.div_unique (addr - 1) 16 (addr / 16) (addr mod 16 - 1))
          by lia.
        lia. }
    lia.
Qed.

Lemma chars_length (s : string) : List.length (chars s) = String.length s.
Proof.
  unfold chars. induction s as [|c s IH]; [reflexivity|].
  cbn [list_ascii_of_string List.length String.length]. rewrite IH. reflexivity.
Qed.

(** X8: the dump has one line feed for each address that is a multiple of 16
    among those of the bytes of [data], and the final one; from address 0
    that is one line for each started group of 16 bytes. *)
Theorem s_hex_dump_lines (data : string) (addr : Z) :
  Z.of_nat (count_char lf (s_hex_dump data addr))
  = (addr + len data - 1) / 16 - (addr - 1) / 16 + 1.
Proof.
  unfold s_hex_dump. rewrite hex_dump_lines. cbn [count_char].
  rewrite !Nat2Z.inj_add, aligned_addresses_closed.
  rewrite chars_length. unfold len. simpl (Z.of_nat 0). simpl (Z.of_nat 1). lia.
Qed.

(** ** s_get and the registry *)

(** X9: without a name, or with the empty string, [s_get] returns the
    current request and changes nothing; with the name of a registered
    request it makes that request the current one, leaves the registry as
    it is and returns it; with any other name it fails with NotFound and
    changes nothing. *)
Theorem s_get_spec :
  (forall (name : option string) (st : blocks),
     truthy_name name = None -> s_get name st = (ok (CURRENT st), st))
  /\ (forall (n : string) (st : blocks) (r : request),
        n <> EmptyString -> REQUESTS st !! n = Some r ->
        exists st',
          s_get (Some n) st = (ok (Some n), st')
          /\ REQUESTS st' = REQUESTS st
          /\ CURRENT st' = Some n
          /\ current st' = Some r)
  /\ (forall (n : string) (st : blocks),
        n <> EmptyString -> REQUESTS st !! n = None ->
        s_get (Some n) st = (raise (SullyRuntimeError NotFound), st)).
Proof.
  split; [|split].
  - intros name st H. unfold s_get. rewrite H. reflexivity.
  - intros n st r Hn Hr. unfold s_get.
    destruct n as [|c t]; [congruence|]. cbn [truthy_name].
    unfold bind, s_switch. rewrite Hr. cbn [REQUESTS]. rewrite Hr.
    eexists. split; [reflexivity|]. cbn [REQUESTS CURRENT].
    split; [reflexivity|]. split; [reflexivity|].
    unfold current. cbn. exact Hr.
  - intros n st Hn Hr. unfold s_get.
    destruct n as [|c t]; [congruence|]. cbn [truthy_name].
    unfold bind, s_switch. rewrite Hr. reflexivity.
Qed.

Lemma s_get_spec_witness :
  s_get None example_state = (ok (Some "req"%string), example_state)
  /\ (exists st',
        s_get (Some "req"%string) example_state = (ok (Some "req"%string), st')
        /\ current st' = Some example_request)
  /\ s_get (Some "other"%string) example_state
     = (raise (SullyRuntimeError NotFound), example_state).
Proof.
  destruct s_get_spec as (Hnone & Hsome & Hmiss).
  split; [exact (Hnone None example_state eq_refl)|]. split.
  - assert (Hn : "req"%string <> EmptyString) by discriminate.
    assert (Hr : REQUESTS example_state !! "req"%string = Some example_request)
      by reflexivity.
    destruct (Hsome _ _ _ Hn Hr) as (st' & Hrun & _ & _ & Hc).
    exists st'. split; [exact Hrun | exact Hc].
  - assert (Hn : "other"%string <> EmptyString) by discriminate.
    assert (Hr : REQUESTS example_state !! "other"%string = None) by reflexivity.
    exact (Hmiss _ _ Hn Hr).
Defined.

Lemma registry_kept_refl (st : blocks) : registry_kept st st.
Proof. split; auto. Qed.

Lemma set_current_kept (r' : request) (st : blocks) :
  registry_kept st (snd (set_current r' st)).
Proof.
  unfold set_current. destruct (CURRENT st) as [c|] eqn:Ec;
    [|apply registry_kept_refl].
  cbn [snd]. split.
  - intros n Hn. cbn [REQUESTS]. rewrite lookup_insert.
    destruct (decide (c = n)); [eauto | exact Hn].
  - intros _ n. cbn [CURRENT REQUESTS]. intros [= <-].
    rewrite lookup_insert_eq. eauto.
Qed.

Lemma current_push_kept (it : item) (st : blocks) :
  registry_kept st (snd (current_push it st)).
Proof.
  unfold current_push. run_get_current st; [|apply registry_kept_refl].
  unfold bind, lift. destruct (request_push it r) as [e|r'];
    [apply registry_kept_refl | apply set_current_kept].
Qed.

Lemma step_kept (st st' : blocks) : step st st' -> registry_kept st st'.
Proof.
  intros Hstep. destruct Hstep.
  - unfold s_initialize. destruct (REQUESTS st !! name) eqn:E;
      [apply registry_kept_refl|]. cbn [snd]. split.
    + intros n Hn. cbn [REQUESTS]. rewrite lookup_insert.
      destruct (decide (name = n)); [eauto | exact Hn].
    + intros _ n. cbn [CURRENT REQUESTS]. intros [= <-].
      rewrite lookup_insert_eq. eauto.
  - unfold s_switch. destruct (REQUESTS st !! name) eqn:E;
      [|apply registry_kept_refl]. cbn [snd]. split; [auto|].
    intros _ n. cbn [CURRENT REQUESTS]. intros [= <-]. rewrite E. eauto.
  - unfold s_block_start, bind.
    pose proof (current_push_kept
      (blocks_block name group encoder dep dep_value dep_values dep_compare)
      st) as Hp.
    destruct (current_push _ st) as [[e|[]] st1]; exact Hp.
  - unfold s_block_end. run_get_current st; [|apply registry_kept_refl].
    unfold bind, lift. destruct (request_pop r) as [e|r'];
      [apply registry_kept_refl | apply set_current_kept].
  - unfold s_checksum. run_get_current st; [|apply registry_kept_refl].
    destruct (in_block_stack block_name r); [apply registry_kept_refl|].
    unfold bind, lift. destruct (blocks_checksum _ _ _ _ _ _);
      [apply registry_kept_refl | apply current_push_kept].
  - unfold s_repeat. run_get_current st; [|apply registry_kept_refl].
    unfold bind, lift. destruct (blocks_repeat _ _ _ _ _ _ _ _);
      [apply registry_kept_refl | apply current_push_kept].
  - unfold s_size. run_get_current st; [|apply registry_kept_refl].
    destruct (in_block_stack block_name r); [apply registry_kept_refl|].
    unfold bind, lift. destruct (blocks_size _ _ _ _ _ _ _ _ _ _ _);
      [apply registry_kept_refl | apply current_push_kept].
  - unfold s_update. run_get_current st; [|apply registry_kept_refl].
    destruct (names r !! name) as [l|];
      [apply set_current_kept | apply registry_kept_refl].
  - apply current_push_kept.
  - unfold s_binary, bind, lift. destruct (s_binary_parse v);
      [apply registry_kept_refl | apply current_push_kept].
Qed.

(** X10: no construction function, whether it returns or raises, removes a
    request from the registry; and in every state reached from the initial
    one, the current request, once there is one, is a registered request. *)
Theorem registry_only_grows :
  (forall st st' : blocks,
     step st st' ->
     forall n, is_Some (REQUESTS st !! n) -> is_Some (REQUESTS st' !! n))
  /\ (forall st : blocks, reachable st -> current_registered st).
Proof.
  split.
  - intros st st' Hstep. apply (step_kept st st' Hstep).
  - induction 1 as [|st st' _ IH Hstep].
    + intros n. unfold initial_state. cbn [CURRENT]. discriminate.
    + apply (step_kept st st' Hstep), IH.
Qed.

Lemma registry_only_grows_witness :
  is_Some (REQUESTS (snd (s_initialize "second" example_state)) !! "req"%string)
  /\ current_registered example_state.
Proof.
  destruct registry_only_grows as [Hgrow Hcur]. split.
  - apply (Hgrow example_state).
    + apply step_initialize.
    + exists example_request. reflexivity.
  - apply Hcur, example_reachable.
Defined.

(** ** s_binary: white space anywhere, and a lone last digit *)

Lemma remove_insert_same (c : ascii) (a b : string) :
  remove_char_spec c (a ++ String c b) = remove_char_spec c (a ++ b).
Proof.
  rewrite !remove_char_app. cbn [remove_char_spec].
  rewrite ascii_dec_eq. reflexivity.
Qed.

Lemma remove_insert_other (d c : ascii) (a b : string) :
  d <> c ->
  remove_char_spec d (a ++ String c b)
  = (remove_char_spec d a ++ String c (remove_char_spec d b))%string.
Proof.
  intros H. rewrite remove_char_app. cbn [remove_char_spec].
  rewrite ascii_dec_ne by exact H. reflexivity.
Qed.

Ltac strip_inserted :=
  repeat first
    [ rewrite remove_insert_same
    | rewrite remove_insert_other
        by (let E := fresh "E" in intro E; vm_compute in E; discriminate E)
    | rewrite remove_char_app ];
  reflexivity.

(** X11: a space, a tab, a carriage return, a line feed or a comma may
    stand anywhere in the argument of [s_binary], also inside a pair of
    digits or inside a [0x]: what is parsed is the same as without it. *)
Theorem s_binary_parse_white_space (c : ascii) (s1 s2 : string) :
  In c [" "%char; tab; cr; lf; ","%char] ->
  s_binary_parse (s1 ++ String c s2) = s_binary_parse (s1 ++ s2).
Proof.
  intros H. unfold s_binary_parse. rewrite !replace_char. do 3 f_equal.
  destruct H as [<-|[<-|[<-|[<-|[<-|[]]]]]]; strip_inserted.
Qed.

Lemma s_binary_parse_white_space_witness :
  s_binary_parse ("0" ++ String " " "x4 1")%string
  = s_binary_parse ("0" ++ "x4 1")%string.
Proof.
  apply (s_binary_parse_white_space " " "0" "x4 1"). left. reflexivity.
Defined.

Lemma even_string_ind (P : string -> Prop) :
  P EmptyString ->
  (forall a b s, P s -> P (String a (String b s))) ->
  forall s, Nat.even (String.length s) = true -> P s.
Proof.
  intros H0 H2.
  assert (H : forall n s, (String.length s <= n)%nat ->
                          Nat.even (String.length s) = true -> P s).
  { induction n as [|n IH]; intros s Hl He.
    - destruct s; [exact H0 | cbn in Hl; lia].
    - destruct s as [|a [|b s]]; [exact H0 | discriminate He|].
      apply H2, IH; [cbn in Hl; lia | exact He]. }
  intros s. apply (H (String.length s)). lia.
Qed.

Lemma hex_string_cons (c : ascii) (s : string) :
  hex_string (String c s) -> is_hex c = true /\ hex_string s.
Proof. unfold hex_string. cbn [chars list_ascii_of_string forallb]. apply andb_true_iff. Qed.

Lemma remove_char_hex (c : ascii) (s : string) :
  is_hex c = false -> hex_string s -> remove_char_spec c s = s.
Proof.
  intros Hc. induction s as [|d s IH]; [reflexivity|].
  intros [Hd Hs]%hex_string_cons. cbn [remove_char_spec].
  rewrite ascii_dec_ne by (apply hex_differs; assumption).
  rewrite IH by exact Hs. reflexivity.
Qed.

Lemma prefix_one_hex (b : ascii) (s : string) :
  is_hex b = false -> hex_string s ->
  String.prefix (String b EmptyString) s = false.
Proof.
  intros Hb. destruct s as [|d s]; [reflexivity|].
  intros [Hd _]%hex_string_cons. apply prefix_one_ne, hex_differs; assumption.
Qed.

Lemma replace_pair_hex (a b : ascii) (s : string) :
  is_hex b = false -> hex_string s ->
  replace (String a (String b EmptyString)) EmptyString s = s.
Proof.
  intros Hb. unfold replace. induction s as [|d s IH]; [reflexivity|].
  intros [Hd Hs]%hex_string_cons.
  rewrite replace_from_keep2 by (apply prefix_one_hex; assumption).
  rewrite IH by exact Hs. reflexivity.
Qed.

(** On digits alone the deletions change nothing. *)
Lemma s_binary_parse_hex (s : string) :
  hex_string s -> s_binary_parse s = parse_pairs s EmptyString.
Proof.
  intros H. unfold s_binary_parse. rewrite !replace_char.
  rewrite (remove_char_hex " " s), (remove_char_hex tab s),
    (remove_char_hex cr s), (remove_char_hex lf s), (remove_char_hex "," s)
    by (reflexivity || exact H).
  rewrite (replace_pair_hex "0" "x" s), (replace_pair_hex backslash "x" s)
    by (reflexivity || exact H).
  reflexivity.
Qed.

Lemma hex_string_app (s t : string) :
  hex_string s -> hex_string t -> hex_string (s ++ t).
Proof.
  unfold hex_string. intros Hs Ht. rewrite chars_app, forallb_app, Hs, Ht.
  reflexivity.
Qed.

Lemma parse_pairs_even (s t acc : string) :
  Nat.even (String.length s) = true -> hex_string s ->
  parse_pairs (s ++ t) acc = parse_pairs t (acc ++ hex_bytes s).
Proof.
  intros He. revert acc. revert s He.
  apply (even_string_ind
           (fun s => forall acc, hex_string s ->
              parse_pairs (s ++ t) acc = parse_pairs t (acc ++ hex_bytes s))).
  - intros acc _. cbn [append hex_bytes]. rewrite append_empty_r. reflexivity.
  - intros a b s IH acc [Ha [Hb Hs]%hex_string_cons]%hex_string_cons.
    cbn [append parse_pairs hex_bytes].
    pose proof (int16_pair a b Ha Hb) as Hp.
    destruct (int16 (String a (String b EmptyString))) as [e|n];
      [discriminate Hp|]. cbn [rbind] in Hp |- *. rewrite Hp. cbn [rbind ok].
    rewrite IH by exact Hs. rewrite append_assoc. reflexivity.
Qed.

Lemma hex_bytes_length (s : string) :
  Nat.even (String.length s) = true ->
  (2 * String.length (hex_bytes s) = String.length s)%nat.
Proof.
  revert s.
  apply (even_string_ind
           (fun s => (2 * String.length (hex_bytes s) = String.length s)%nat));
    [reflexivity|].
  intros a b s IH. cbn [hex_bytes String.length]. lia.
Qed.

(** X12: digits in odd number are accepted: the pairs before the last digit
    give one byte each, and the last digit alone gives a byte of its own
    value. *)
Theorem s_binary_parse_odd (s : string) (d : ascii) :
  hex_string s -> Nat.even (String.length s) = true -> is_hex d = true ->
  s_binary_parse s = ok (hex_bytes s)
  /\ (2 * String.length (hex_bytes s) = String.length s)%nat
  /\ s_binary_parse (s ++ String d EmptyString)
     = ok (hex_bytes s ++ String (digit_byte d) EmptyString)%string.
Proof.
  intros Hs He Hd.
  assert (Hd' : hex_string (String d EmptyString)).
  { unfold hex_string. cbn [chars list_ascii_of_string forallb]. rewrite Hd.
    reflexivity. }
  split; [|split; [apply hex_bytes_length, He|]].
  - rewrite s_binary_parse_hex by exact Hs.
    rewrite <- (append_empty_r s) at 1.
    rewrite parse_pairs_even by assumption. reflexivity.
  - rewrite s_binary_parse_hex by (apply hex_string_app; assumption).
    rewrite parse_pairs_even by assumption.
    cbn [parse_pairs append]. unfold int16, digit_byte, is_hex in *.
    cbn [hex_value]. destruct (hex_digit d) as [x|] eqn:Ex; [|discriminate Hd].
    cbn [mbind option_bind rbind ok]. apply hex_digit_range in Ex.
    rewrite chr_ok by lia. reflexivity.
Qed.

Lemma s_binary_parse_odd_witness :
  s_binary_parse "4142" = ok (hex_bytes "4142")
  /\ (2 * String.length (hex_bytes "4142") = String.length "4142")%nat
  /\ s_binary_parse ("4142" ++ "c")
     = ok (hex_bytes "4142" ++ String (digit_byte "c") EmptyString)%string.
Proof.
  apply (s_binary_parse_odd "4142" "c"); reflexivity.
Defined.

(** ** crcbitbybit detects every single-bit error *)

Lemma reg_shift_nonzero (r : Z) :
  0 <= r < 2 ^ 16 -> r <> 0 -> reg_shift false r <> 0.
Proof.
  intros Hr Hnz. unfold reg_shift. simpl Z.b2z. rewrite Z.add_0_r.
  destruct (Z.testbit r 15) eqn:Hb.
  - intros H0. apply (f_equal (fun z => Z.testbit z 0)) in H0.
    rewrite Z.lxor_spec, Z.testbit_mod_pow2, Z.bits_0 in H0 by lia.
    rewrite Z.testbit_even_0 in H0. discriminate H0.
  - apply Z.testbit_false in Hb; [|lia].
    assert (Hq : 0 <= r / 2 ^ 15 < 2)
      by (split; [apply Z.div_pos; lia | apply Z.div_lt_upper_bound; lia]).
    assert (Hq0 : r / 2 ^ 15 = 0).
    { destruct (Z.eq_dec (r / 2 ^ 15) 0) as [E|E]; [exact E|].
      assert (E1 : r / 2 ^ 15 = 1) by lia. rewrite E1 in Hb. discriminate Hb. }
    apply Z.div_small_iff in Hq0; [|lia].
    rewrite Z.mod_small by lia. lia.
Qed.

Lemma iter_shift_nonzero (n : nat) (r : Z) :
  0 <= r < 2 ^ 16 -> r <> 0 ->
  0 <= Nat.iter n (reg_shift false) r < 2 ^ 16
  /\ Nat.iter n (reg_shift false) r <> 0.
Proof.
  intros Hr Hnz. induction n as [|n [IHr IHnz]]; [split; assumption|].
  cbn [Nat.iter nat_rect]. split; [apply reg_shift_range|].
  apply reg_shift_nonzero; assumption.
Qed.

Lemma reference_byte_zero (r : Z) :
  reference_byte 7 8 r zero = Nat.iter 8 (reg_shift false) r.
Proof.
  unfold reference_byte. change (reflect_bits 8 (ord zero)) with 0.
  rewrite (shift_fold_ext _ (fun _ => false)) by (intros; apply Z.bits_0).
  apply shift_fold_zero.
Qed.

Lemma zeros_keep_nonzero (m : nat) (r : Z) :
  0 <= r < 2 ^ 16 -> r <> 0 ->
  0 <= fold_left (reference_byte 7 8) (chars (payload m zero)) r < 2 ^ 16
  /\ fold_left (reference_byte 7 8) (chars (payload m zero)) r <> 0.
Proof.
  revert r. induction m as [|m IH]; intros r Hr Hnz; [split; assumption|].
  cbn [payload chars list_ascii_of_string fold_left].
  rewrite reference_byte_zero.
  destruct (iter_shift_nonzero 8 r Hr Hnz) as [H1 H2]. apply IH; assumption.
Qed.

Lemma zeros_keep_zero (n : nat) :
  fold_left (reference_byte 7 8) (chars (payload n zero)) 0 = 0.
Proof.
  induction n as [|n IH]; [reflexivity|].
  cbn [payload chars list_ascii_of_string fold_left].
  change (reference_byte 7 8 0 zero) with 0. exact IH.
Qed.

Lemma one_bit_loads (i : nat) :
  (i < 8)%nat ->
  reference_byte 7 8 0 (ascii_of_N (Z.to_N (2 ^ Z.of_nat i))) <> 0.
Proof.
  intros Hi.
  do 8 (destruct i as [|i]; [vm_compute; discriminate|]). lia.
Qed.

Lemma reflect_bits_nonzero (w : Z) :
  0 <= w < 2 ^ 16 -> w <> 0 -> reflect_bits 16 w <> 0.
Proof.
  intros Hw Hnz H0. apply Hnz.
  rewrite <- (Z.mod_small w (2 ^ Z.of_nat 16)) by exact Hw.
  rewrite <- reflect_bits_involutive, H0. reflexivity.
Qed.

Lemma fold_chars_cons {A} (f : A -> ascii -> A) (c : ascii) (s : string) (r : A) :
  fold_left f (chars (String c s)) r = fold_left f (chars s) (f r c).
Proof. reflexivity. Qed.

Lemma single_bit_register (n i m : nat) :
  (i < 8)%nat ->
  reflect_bits 16
    (Nat.iter 16 (reg_shift false)
       (fold_left (reference_byte 7 8) (chars (single_bit n i m)) 0))
  <> 0.
Proof.
  intros Hi. unfold single_bit. rewrite chars_app, fold_left_app, zeros_keep_zero.
  rewrite fold_chars_cons.
  pose proof (one_bit_loads i Hi) as Hnz.
  pose proof (reference_byte_range 7 8 0 (ascii_of_N (Z.to_N (2 ^ Z.of_nat i)))
                ltac:(lia)) as Hr.
  destruct (zeros_keep_nonzero m _ Hr Hnz) as [Hr1 Hnz1].
  destruct (iter_shift_nonzero 16 _ Hr1 Hnz1) as [Hr2 Hnz2].
  apply reflect_bits_nonzero; assumption.
Qed.

(** X13: a single flipped bit is always detected: the checksum of a string
    with one bit flipped, at any place, differs from that of the string. *)
Theorem crcbitbybit_single_bit (a : string) (n i m : nat) :
  (i < 8)%nat -> String.length a = (n + 1 + m)%nat ->
  crcbitbybit (xor_strings a (single_bit n i m)) <> crcbitbybit a.
Proof.
  intros Hi Hlen.
  assert (Hl : String.length a = String.length (single_bit n i m)).
  { rewrite Hlen. unfold single_bit.
    assert (Hp : forall k c, String.length (payload k c) = k)
      by (induction k as [|k IH]; intros c; cbn; [|rewrite IH]; reflexivity).
    assert (Ha : forall s t, String.length (s ++ t)
                             = (String.length s + String.length t)%nat).
    { induction s as [|c s IHs]; intros t; cbn; [|rewrite IHs]; reflexivity. }
    rewrite Ha. cbn [String.length]. rewrite !Hp. lia. }
  rewrite !crcbitbybit_register.
  rewrite <- (Z.lxor_0_r 0) at 1. rewrite (reference_fold_lxor _ _ 0 0 Hl).
  rewrite <- !(shift_fold_zero (seq 0 16)).
  rewrite <- (shift_fold_ext (fun k => xorb false false) (fun _ => false))
    by reflexivity.
  rewrite shift_fold_lxor, reflect_bits_lxor, !shift_fold_zero.
  change (List.length (seq 0 16)) with 16%nat.
  intros H. apply (single_bit_register n i m Hi).
  set (x := reflect_bits 16 (Nat.iter 16 (reg_shift false)
              (fold_left (reference_byte 7 8) (chars a) 0))) in *.
  set (y := reflect_bits 16 (Nat.iter 16 (reg_shift false)
              (fold_left (reference_byte 7 8) (chars (single_bit n i m)) 0))) in *.
  rewrite <- (Z.lxor_0_l y), <- (Z.lxor_nilpotent x), Z.lxor_assoc, H.
  reflexivity.
Qed.

Lemma crcbitbybit_single_bit_witness :
  crcbitbybit (xor_strings "123456789" (single_bit 4 3 4))
  <> crcbitbybit "123456789".
Proof. apply (crcbitbybit_single_bit "123456789" 4 3 4); [lia | reflexivity]. Defined.

(** ** s_update overwrites *)

Lemma set_value_twice (v1 v2 : pyval) (l : loc) (os : list item) :
  alter (set_value v2) l (alter (set_value v1) l os) = alter (set_value v2) l os.
Proof.
  apply list_eq. intros i. destruct (decide (l = i)) as [->|Hne].
  - rewrite !list_lookup_alter_eq. destruct (os !! i); reflexivity.
  - rewrite !list_lookup_alter_ne by exact Hne. reflexivity.
Qed.

(** X14: a second [s_update] of a field wipes out the first: updating a
    field of the current request to [v1] and then to [v2] leaves the globals
    exactly as updating it to [v2] at once. *)
Theorem s_update_overwrites (name : string) (v1 v2 : pyval) (st : blocks)
    (r : request) (l : loc) :
  current st = Some r -> names r !! name = Some l ->
  s_update name v2 (snd (s_update name v1 st)) = s_update name v2 st.
Proof.
  intros Hc Hn. destruct (current_some _ _ Hc) as (n & Hcur & Hreq).
  assert (Hrun : forall v,
    s_update name v st
    = (ok tt,
       {| REQUESTS :=
            <[n := {| req_name := req_name r;
                      objs := alter (set_value v) l (objs r);
                      stack := stack r; block_stack := block_stack r;
                      names := names r |}]> (REQUESTS st);
          CURRENT := Some n |})).
  { intros v. unfold s_update, bind. rewrite (get_current_some _ _ Hc).
    unfold ok. cbn beta iota. rewrite Hn. unfold set_current. rewrite Hcur.
    reflexivity. }
  rewrite !Hrun. cbn [snd].
  unfold s_update, bind, get_current, current. cbn [CURRENT REQUESTS mbind option_bind].
  rewrite lookup_insert_eq. unfold ok. cbn beta iota. cbn [names]. rewrite Hn.
  unfold set_current. cbn [CURRENT REQUESTS req_name objs stack block_stack names].
  rewrite insert_insert_eq, set_value_twice. reflexivity.
Qed.

Lemma s_update_overwrites_witness :
  s_update "f" (PyStr "EF") (snd (s_update "f" (PyStr "CD") example_state))
  = s_update "f" (PyStr "EF") example_state.
Proof.
  apply (s_update_overwrites "f" (PyStr "CD") (PyStr "EF") example_state
           example_request 0%nat); reflexivity.
Defined.
